(** * CaMeL: capability tracker, restricted interpreter, policies

    A shallow embedding of the security core of the CaMeL runtime
    (camel/capabilities.py, camel/interpreter.py, camel/llm.py,
    camel/core.py, camel/tools.py, camel/mcp_security.py) and the
    properties of its specification checked against it.

    Conventions of the embedding.
    - A Python [str] is a [string] read as a sequence of code points
      below 256.
    - A Python [set] is a [gset], a [dict] with string keys a [gmap]; the
      two constant class sets of the validator are lists.
    - An exception is a value of [exn]; code that may raise returns
      [exn + A], and stateful code threads its state explicitly.
    - [print] output is not modelled. *)

From Stdlib Require Import Strings.String Strings.Ascii ZArith Lia List Bool.
From stdpp Require Import base decidable countable gmap strings list relations.

Local Open Scope string_scope.
Set Warnings "-register-all".

(** ** Python string primitives *)

Module pystr.

(** [str.isspace] on one code point below 256. *)
Definition isspace (c : ascii) : bool :=
  let n := nat_of_ascii c in
  (((9 <=? n) && (n <=? 13)) || ((28 <=? n) && (n <=? 32))
   || (n =? 133) || (n =? 160))%nat.

(** [str.lower] on one code point below 256. *)
Definition lower_char (c : ascii) : ascii :=
  let n := nat_of_ascii c in
  if (((65 <=? n) && (n <=? 90))
      || ((192 <=? n) && (n <=? 222) && negb (n =? 215)))%nat
  then ascii_of_nat (n + 32) else c.

Fixpoint lower (s : string) : string :=
  match s with
  | EmptyString => EmptyString
  | String c t => String (lower_char c) (lower t)
  end.

(** [needle in hay] for two strings. *)
Fixpoint contains (needle hay : string) : bool :=
  String.prefix needle hay
  || match hay with
     | EmptyString => false
     | String _ t => contains needle t
     end.

(** [c in s] for a single character [c]. *)
Fixpoint contains_char (c : ascii) (s : string) : bool :=
  match s with
  | EmptyString => false
  | String d t => Ascii.eqb c d || contains_char c t
  end.

Fixpoint lstrip (s : string) : string :=
  match s with
  | EmptyString => EmptyString
  | String c t => if isspace c then lstrip t else s
  end.

Fixpoint rstrip (s : string) : string :=
  match s with
  | EmptyString => EmptyString
  | String c t =>
      match rstrip t with
      | EmptyString => if isspace c then EmptyString else String c EmptyString
      | t' => String c t'
      end
  end.

(** [str.strip()] with no argument. *)
Definition strip (s : string) : string := rstrip (lstrip s).

(** [str(n)] for a natural number. *)
Definition of_nat (n : nat) : string := pretty.pretty n.

End pystr.

(** ** camel/capabilities.py: the label algebra *)

Inductive CapabilityType :=
  READ | WRITE | EXECUTE | NETWORK | TRUSTED | UNTRUSTED.

#[global] Instance CapabilityType_eq_dec : EqDecision CapabilityType.
Proof. solve_decision. Defined.

Definition CapabilityType_to_nat (t : CapabilityType) : nat :=
  match t with
  | READ => 0 | WRITE => 1 | EXECUTE => 2
  | NETWORK => 3 | TRUSTED => 4 | UNTRUSTED => 5
  end.

Definition CapabilityType_of_nat (n : nat) : option CapabilityType :=
  match n with
  | 0 => Some READ | 1 => Some WRITE | 2 => Some EXECUTE
  | 3 => Some NETWORK | 4 => Some TRUSTED | 5 => Some UNTRUSTED
  | _ => None
  end.

#[global] Instance CapabilityType_countable : Countable CapabilityType.
Proof.
  apply (inj_countable CapabilityType_to_nat CapabilityType_of_nat).
  intros []; reflexivity.
Defined.

(** The dataclass [Capability].  The generated [__eq__] compares the three
    fields, [__hash__] only the first two; a set therefore keeps two
    capabilities apart exactly when one of the three fields differs. *)
Record Capability := mkCapability {
  capability_type : CapabilityType;
  source : string;
  metadata : gmap string string
}.

Definition Capability_to_tuple (c : Capability) :=
  (capability_type c, source c, metadata c).

Definition Capability_of_tuple
    (t : CapabilityType * string * gmap string string) : Capability :=
  let '(k, s, m) := t in mkCapability k s m.

#[global] Instance Capability_eq_dec : EqDecision Capability.
Proof. solve_decision. Defined.

#[global] Instance Capability_countable : Countable Capability.
Proof.
  apply (inj_countable' Capability_to_tuple Capability_of_tuple).
  intros []; reflexivity.
Defined.

(** [Capability(t, src)]: the metadata defaults to the empty dict. *)
Definition Capability_new (t : CapabilityType) (src : string) : Capability :=
  mkCapability t src ∅.

(** The dataclass [CapabilitySet].  Its second field [data_id] is a fresh
    [uuid4] string that no method of the repository reads; it is left out. *)
Record CapabilitySet := mkCapabilitySet {
  capabilities : gset Capability
}.

(** [CapabilitySet()] *)
Definition CapabilitySet_new : CapabilitySet := mkCapabilitySet ∅.

Definition add (self : CapabilitySet) (capability : Capability)
  : CapabilitySet :=
  mkCapabilitySet (capabilities self ∪ {[ capability ]}).

Definition has_capability (self : CapabilitySet)
    (t : CapabilityType) (src : option string) : bool :=
  existsb
    (fun cap =>
       bool_decide (capability_type cap = t)
       && match src with
          | None => true
          | Some s => bool_decide (source cap = s)
          end)
    (elements (capabilities self)).

Definition is_trusted (self : CapabilitySet) : bool :=
  has_capability self TRUSTED None.

Definition is_untrusted (self : CapabilitySet) : bool :=
  has_capability self UNTRUSTED None.

Definition get_sources (self : CapabilitySet) : gset string :=
  set_map source (capabilities self).

Definition merge (self other : CapabilitySet) : CapabilitySet :=
  mkCapabilitySet (capabilities self ∪ capabilities other).

(** [derive_from(self, *sources)]; [self] is not read by the method. *)
Definition derive_from (sources : list CapabilitySet) : CapabilitySet :=
  let derived :=
    fold_left (fun d src => mkCapabilitySet (capabilities d ∪ capabilities src))
              sources CapabilitySet_new in
  if existsb is_untrusted sources
  then add derived (Capability_new UNTRUSTED "derived")
  else derived.

(** ** Program values and exceptions *)

(** The values a restricted program handles: [None], booleans, integers,
    strings and the callables of the function table (named by their key).
    Floats, bytes and containers returned by tools are outside the model. *)
Inductive value :=
| VNone
| VBool (b : bool)
| VInt (z : Z)
| VStr (s : string)
| VFunc (name : string).

#[global] Instance value_eq_dec : EqDecision value.
Proof. solve_decision. Defined.

(** [bool(v)] *)
Definition truthy (v : value) : bool :=
  match v with
  | VNone => false
  | VBool b => b
  | VInt z => negb (z =? 0)%Z
  | VStr s => negb (String.eqb s "")
  | VFunc _ => true
  end.

(** A raised exception: its class and [str(e)]. *)
Inductive exn :=
| CaMeLInterpreterError (msg : string)
| TypeError (msg : string)
| ValueError (msg : string)
| AttributeError (msg : string)
| KeyError (msg : string)
| RuntimeError (msg : string).

Definition exn_str (e : exn) : string :=
  match e with
  | CaMeLInterpreterError m | TypeError m | ValueError m
  | AttributeError m | KeyError m | RuntimeError m => m
  end.

(** What a policy finds under a key of its [**kwargs]: a program value (the
    unit tests pass strings), or one of the three objects the interpreter
    passes: the list of positional values, the dict of keyword values (a
    [**mapping] argument has the key [None]), the list of label sets. *)
Inductive ctx_value :=
| CtxValue (v : value)
| CtxArgs (args : list value)
| CtxKwargs (kwargs : list (option string * value))
| CtxCaps (caps : list CapabilitySet).

Definition ctx_truthy (c : ctx_value) : bool :=
  match c with
  | CtxValue v => truthy v
  | CtxArgs l => negb (bool_decide (l = []))
  | CtxKwargs l => match l with [] => false | _ => true end
  | CtxCaps l => match l with [] => false | _ => true end
  end.

(** ** camel/capabilities.py: policies and the tracker *)

Record EmailSecurityPolicy := mkEmailSecurityPolicy {
  trusted_domains : gset string;
  approved_recipients : gset string
}.

(** [self.blocked_domains]: set once by [__init__], never changed. *)
Definition blocked_domains (self : EmailSecurityPolicy) : gset string :=
  {[ "evil.com"; "malicious.com"; "attacker.com"; "hacker.com" ]}.

Record FileAccessPolicy := mkFileAccessPolicy {
  allowed_paths : gset string
}.

(** The objects of [tracker.policies].  A policy reads the tracker only
    through its variable table, which is what [CustomPolicy] receives. *)
Inductive SecurityPolicy :=
| EmailPolicy (p : EmailSecurityPolicy)
| FilePolicy (p : FileAccessPolicy)
| CustomPolicy
    (check : string -> gmap string CapabilitySet ->
             gmap string ctx_value -> exn + bool).

Record CapabilityTracker := mkCapabilityTracker {
  variable_capabilities : gmap string CapabilitySet;
  policies : list SecurityPolicy
}.

(** [CapabilityTracker()] *)
Definition CapabilityTracker_new : CapabilityTracker :=
  mkCapabilityTracker ∅ [].

Definition assign_capabilities (self : CapabilityTracker)
    (variable_name : string) (caps : CapabilitySet) : CapabilityTracker :=
  mkCapabilityTracker (<[variable_name := caps]> (variable_capabilities self))
                      (policies self).

Definition get_capabilities (self : CapabilityTracker)
    (variable_name : string) : option CapabilitySet :=
  variable_capabilities self !! variable_name.

(** The loop of [derive_capabilities] collecting the labels of the bound
    sources.  [if caps:] tests for [None] only: a [CapabilitySet] defines
    neither [__bool__] nor [__len__], so every instance is true. *)
Definition collect_source_caps (self : CapabilityTracker)
    (source_vars : list string) : list CapabilitySet :=
  omap (get_capabilities self) source_vars.

Definition derive_capabilities (self : CapabilityTracker)
    (result_var : string) (source_vars : list string) : CapabilityTracker :=
  let source_caps := collect_source_caps self source_vars in
  match source_caps with
  | [] => self
  | _ => assign_capabilities self result_var (derive_from source_caps)
  end.

Definition add_policy (self : CapabilityTracker) (policy : SecurityPolicy)
  : CapabilityTracker :=
  mkCapabilityTracker (variable_capabilities self) (policies self ++ [policy]).

(** [tracker.get_capabilities(k)] where [k] was taken from [**kwargs]:
    [dict.get] finds string keys only and rejects an unhashable [k]. *)
Definition get_capabilities_ctx (self : CapabilityTracker) (k : ctx_value)
  : exn + option CapabilitySet :=
  match k with
  | CtxValue (VStr s) => inr (get_capabilities self s)
  | CtxValue _ => inr None
  | CtxArgs _ | CtxCaps _ => inl (TypeError "unhashable type: 'list'")
  | CtxKwargs _ => inl (TypeError "unhashable type: 'dict'")
  end.

(** [any(f(x) for x in s)] over a set of strings. *)
Definition any_in (s : gset string) (f : string -> bool) : bool :=
  existsb f (elements s).

Module EmailSecurityPolicy.

(** [EmailSecurityPolicy(trusted_domains, approved_recipients)] *)
Definition init (trusted : gset string) (approved : option (gset string))
  : EmailSecurityPolicy :=
  mkEmailSecurityPolicy trusted (default ∅ approved).

Definition check (self : EmailSecurityPolicy) (operation : string)
    (tracker : CapabilityTracker) (kwargs : gmap string ctx_value)
  : exn + bool :=
  if String.eqb operation "send_email" then
    match default (CtxValue (VStr "")) (kwargs !! "recipient_value") with
    | CtxValue (VStr recipient) =>
        if any_in (blocked_domains self)
                  (fun bad_domain =>
                     pystr.contains bad_domain (pystr.lower recipient))
        then inr false
        else if bool_decide (recipient ∈ approved_recipients self)
        then inr true
        else
          match kwargs !! "recipient" with
          | Some recipient_var =>
              if ctx_truthy recipient_var then
                match get_capabilities_ctx tracker recipient_var with
                | inl e => inl e
                | inr (Some recipient_caps) =>
                    if is_untrusted recipient_caps then
                      inr (any_in (trusted_domains self)
                             (fun domain => pystr.contains domain recipient))
                    else inr true
                | inr None => inr true
                end
              else inr true
          | None => inr true
          end
    | _ => inl (AttributeError "object has no attribute 'lower'")
    end
  else inr true.

Definition add_approved_recipient (self : EmailSecurityPolicy)
    (email : string) : EmailSecurityPolicy :=
  mkEmailSecurityPolicy (trusted_domains self)
    (approved_recipients self ∪ {[ email ]}).

Definition remove_approved_recipient (self : EmailSecurityPolicy)
    (email : string) : EmailSecurityPolicy :=
  mkEmailSecurityPolicy (trusted_domains self)
    (approved_recipients self ∖ {[ email ]}).

End EmailSecurityPolicy.

Module FileAccessPolicy.

(** [allowed in path_value] for what [kwargs.get("path_value", "")] may
    hold: a substring test on a string, a membership test on a list or a
    dict, a [TypeError] on any other value. *)
Definition allowed_in (allowed : string) (path_value : ctx_value)
  : exn + bool :=
  match path_value with
  | CtxValue (VStr s) => inr (pystr.contains allowed s)
  | CtxValue _ => inl (TypeError "argument is not iterable")
  | CtxArgs l => inr (bool_decide (VStr allowed ∈ l))
  | CtxKwargs l => inr (bool_decide (Some allowed ∈ l.*1))
  | CtxCaps _ => inr false
  end.

(** [any(allowed in path_value for allowed in self.allowed_paths)]: the
    generator stops at the first hit or the first exception. *)
Fixpoint any_allowed (alloweds : list string) (path_value : ctx_value)
  : exn + bool :=
  match alloweds with
  | [] => inr false
  | a :: rest =>
      match allowed_in a path_value with
      | inl e => inl e
      | inr true => inr true
      | inr false => any_allowed rest path_value
      end
  end.

Definition check (self : FileAccessPolicy) (operation : string)
    (tracker : CapabilityTracker) (kwargs : gmap string ctx_value)
  : exn + bool :=
  if String.eqb operation "read_file" || String.eqb operation "write_file"
  then
    match kwargs !! "path" with
    | Some path =>
        if ctx_truthy path then
          match get_capabilities_ctx tracker path with
          | inl e => inl e
          | inr (Some path_caps) =>
              if is_untrusted path_caps then
                any_allowed (elements (allowed_paths self))
                  (default (CtxValue (VStr "")) (kwargs !! "path_value"))
              else inr true
          | inr None => inr true
          end
        else inr true
    | None => inr true
    end
  else inr true.

End FileAccessPolicy.

(** [policy.check(operation, tracker, **kwargs)], by the class of [policy]. *)
Definition policy_check (policy : SecurityPolicy) (operation : string)
    (tracker : CapabilityTracker) (kwargs : gmap string ctx_value)
  : exn + bool :=
  match policy with
  | EmailPolicy p => EmailSecurityPolicy.check p operation tracker kwargs
  | FilePolicy p => FileAccessPolicy.check p operation tracker kwargs
  | CustomPolicy f => f operation (variable_capabilities tracker) kwargs
  end.

(** The loop of [check_operation] over [self.policies]. *)
Fixpoint check_policies (ps : list SecurityPolicy) (operation : string)
    (tracker : CapabilityTracker) (kwargs : gmap string ctx_value)
  : exn + bool :=
  match ps with
  | [] => inr true
  | policy :: rest =>
      match policy_check policy operation tracker kwargs with
      | inl e => inl e
      | inr false => inr false
      | inr true => check_policies rest operation tracker kwargs
      end
  end.

Definition check_operation (self : CapabilityTracker) (operation : string)
    (kwargs : gmap string ctx_value) : exn + bool :=
  check_policies (policies self) operation self kwargs.

(** ** The syntax trees of Python's [ast] module *)

Module ast.

Inductive expr_context := Load | Store | Del.
Inductive boolop := And | Or.
Inductive operator :=
  Add | Sub | Mult | MatMult | Div | Mod | Pow
| LShift | RShift | BitOr | BitXor | BitAnd | FloorDiv.
Inductive unaryop := Invert | Not | UAdd | USub.
Inductive cmpop := Eq | NotEq | Lt | LtE | Gt | GtE | Is | IsNot | In | NotIn.

(** The literals of [ast.Constant] that the model carries. *)
Inductive constant :=
| CNone
| CBool (b : bool)
| CInt (z : Z)
| CStr (s : string).

(** The expression classes that neither the validator's whitelist nor the
    interpreter knows by structure. *)
Inductive other_expr :=
  NamedExpr | Lambda | IfExp | Set_ | ListComp | SetComp | DictComp
| GeneratorExp | Await | Yield | YieldFrom | FormattedValue | JoinedStr
| Starred.

Inductive expr :=
| BoolOp (op : boolop) (values : list expr)
| BinOp (left : expr) (op : operator) (right : expr)
| UnaryOp (op : unaryop) (operand : expr)
| Dict (keys : list (option expr)) (values : list expr)
| List (elts : list expr) (ctx : expr_context)
| Tuple (elts : list expr) (ctx : expr_context)
| Compare (left : expr) (ops : list cmpop) (comparators : list expr)
| Call (func : expr) (args : list expr)
       (keywords : list (option string * expr))
| Constant (value : constant)
| Attribute (value : expr) (attr : string) (ctx : expr_context)
| Subscript (value : expr) (slice : expr) (ctx : expr_context)
| Name (id : string) (ctx : expr_context)
| Slice (lower upper step : option expr)
| OtherExpr (cls : other_expr) (children : list expr).

(** [ast.arguments], the parameter list of a [def]. *)
Inductive arguments :=
| Arguments (names : list string) (defaults : list expr).

(** The statement classes outside the whitelist. *)
Inductive other_stmt :=
  AsyncFunctionDef | ClassDef | Delete | TypeAlias | AugAssign | AnnAssign
| For | AsyncFor | While | With | AsyncWith | Match | Raise | Try | TryStar
| Assert | Import | ImportFrom | Global | Nonlocal | Pass | Break | Continue.

Inductive stmt :=
| FunctionDef (name : string) (args : arguments) (body : list stmt)
              (decorator_list : list expr) (returns : option expr)
| Return (value : option expr)
| Assign (targets : list expr) (value : expr)
| If (test : expr) (body orelse : list stmt)
| Expr (value : expr)
| OtherStmt (cls : other_stmt) (exprs : list expr) (body : list stmt).

(** [ast.Module], what [ast.parse] returns. *)
Inductive mod_ :=
| Module_ (body : list stmt).

(** [type(node).__name__] *)

Definition expr_context_name (c : expr_context) : string :=
  match c with Load => "Load" | Store => "Store" | Del => "Del" end.

Definition boolop_name (o : boolop) : string :=
  match o with And => "And" | Or => "Or" end.

Definition operator_name (o : operator) : string :=
  match o with
  | Add => "Add" | Sub => "Sub" | Mult => "Mult" | MatMult => "MatMult"
  | Div => "Div" | Mod => "Mod" | Pow => "Pow" | LShift => "LShift"
  | RShift => "RShift" | BitOr => "BitOr" | BitXor => "BitXor"
  | BitAnd => "BitAnd" | FloorDiv => "FloorDiv"
  end.

Definition unaryop_name (o : unaryop) : string :=
  match o with
  | Invert => "Invert" | Not => "Not" | UAdd => "UAdd" | USub => "USub"
  end.

Definition cmpop_name (o : cmpop) : string :=
  match o with
  | Eq => "Eq" | NotEq => "NotEq" | Lt => "Lt" | LtE => "LtE" | Gt => "Gt"
  | GtE => "GtE" | Is => "Is" | IsNot => "IsNot" | In => "In"
  | NotIn => "NotIn"
  end.

Definition other_expr_name (c : other_expr) : string :=
  match c with
  | NamedExpr => "NamedExpr" | Lambda => "Lambda" | IfExp => "IfExp"
  | Set_ => "Set" | ListComp => "ListComp" | SetComp => "SetComp"
  | DictComp => "DictComp" | GeneratorExp => "GeneratorExp"
  | Await => "Await" | Yield => "Yield" | YieldFrom => "YieldFrom"
  | FormattedValue => "FormattedValue" | JoinedStr => "JoinedStr"
  | Starred => "Starred"
  end.

Definition expr_name (e : expr) : string :=
  match e with
  | BoolOp _ _ => "BoolOp" | BinOp _ _ _ => "BinOp"
  | UnaryOp _ _ => "UnaryOp" | Dict _ _ => "Dict" | List _ _ => "List"
  | Tuple _ _ => "Tuple" | Compare _ _ _ => "Compare"
  | Call _ _ _ => "Call" | Constant _ => "Constant"
  | Attribute _ _ _ => "Attribute" | Subscript _ _ _ => "Subscript"
  | Name _ _ => "Name" | Slice _ _ _ => "Slice"
  | OtherExpr c _ => other_expr_name c
  end.

Definition other_stmt_name (c : other_stmt) : string :=
  match c with
  | AsyncFunctionDef => "AsyncFunctionDef" | ClassDef => "ClassDef"
  | Delete => "Delete" | TypeAlias => "TypeAlias"
  | AugAssign => "AugAssign" | AnnAssign => "AnnAssign" | For => "For"
  | AsyncFor => "AsyncFor" | While => "While" | With => "With"
  | AsyncWith => "AsyncWith" | Match => "Match" | Raise => "Raise"
  | Try => "Try" | TryStar => "TryStar" | Assert => "Assert"
  | Import => "Import" | ImportFrom => "ImportFrom" | Global => "Global"
  | Nonlocal => "Nonlocal" | Pass => "Pass" | Break => "Break"
  | Continue => "Continue"
  end.

Definition stmt_name (s : stmt) : string :=
  match s with
  | FunctionDef _ _ _ _ _ => "FunctionDef" | Return _ => "Return"
  | Assign _ _ => "Assign" | If _ _ _ => "If" | Expr _ => "Expr"
  | OtherStmt c _ _ => other_stmt_name c
  end.

End ast.

(** ** camel/interpreter.py: [RestrictedASTVisitor] *)

(** The two class sets, by class name; they are only ever asked whether a
    class is a member, and are kept as lists.  [ast.Str] and [ast.Index]
    are added to the whitelist when the running Python still has them;
    [ast.parse] produces neither, so they are left out. *)
Definition ALLOWED_NODES : list string :=
  [ "Module"; "Expr"; "Call"; "Name"; "Load"; "Store";
    "Assign"; "Constant"; "keyword"; "arg";
    "FunctionDef"; "Return"; "If"; "Compare"; "BoolOp";
    "And"; "Or"; "Eq"; "NotEq"; "Lt"; "LtE"; "Gt"; "GtE";
    "Add"; "Sub"; "Mult"; "Div"; "BinOp"; "UnaryOp";
    "USub"; "UAdd"; "Not"; "List"; "Tuple"; "Dict";
    "Subscript"; "Slice"; "Attribute" ].

Definition FORBIDDEN_CONSTRUCTS : list string :=
  [ "Import"; "ImportFrom"; "Global";
    "Nonlocal"; "ClassDef"; "AsyncFunctionDef"; "With";
    "AsyncWith"; "For"; "AsyncFor"; "While"; "Try";
    "Lambda"; "Yield"; "YieldFrom"; "Await" ].

(** The two tests at the head of [visit], on the class name of the node. *)
Definition visit_head (cls : string) : exn + () :=
  if bool_decide (cls ∈ FORBIDDEN_CONSTRUCTS)
  then inl (CaMeLInterpreterError ("Forbidden construct: " ++ cls))
  else if negb (bool_decide (cls ∈ ALLOWED_NODES))
  then inl (CaMeLInterpreterError ("Unknown/disallowed construct: " ++ cls))
  else inr ().

(** Run [a], and [b] unless [a] raised. *)
Notation "a >>> b" :=
  (match a with inl e => inl e | inr _ => b end)
  (at level 63, right associativity, only parsing).

(** [visit] of an optional child: [generic_visit] skips a [None] field. *)
Definition visit_opt {A} (visit : A -> exn + ()) (o : option A) : exn + () :=
  match o with Some x => visit x | None => inr () end.

(** [visit(node)] on an expression: the head tests, then [generic_visit]
    over the node's fields in the order of [_fields]. *)
Fixpoint visit_expr (node : ast.expr) : exn + () :=
  let visit_list :=
    fix go (l : list ast.expr) : exn + () :=
      match l with
      | [] => inr ()
      | x :: t => visit_expr x >>> go t
      end in
  let visit_opt_list :=
    fix go (l : list (option ast.expr)) : exn + () :=
      match l with
      | [] => inr ()
      | Some x :: t => visit_expr x >>> go t
      | None :: t => go t
      end in
  let visit_keywords :=
    fix go (l : list (option string * ast.expr)) : exn + () :=
      match l with
      | [] => inr ()
      | (_, v) :: t => visit_head "keyword" >>> visit_expr v >>> go t
      end in
  let visit_o (o : option ast.expr) : exn + () :=
    match o with Some x => visit_expr x | None => inr () end in
  visit_head (ast.expr_name node) >>>
  match node with
  | ast.BoolOp op values =>
      visit_head (ast.boolop_name op) >>> visit_list values
  | ast.BinOp lhs op rhs =>
      visit_expr lhs >>> visit_head (ast.operator_name op) >>>
      visit_expr rhs
  | ast.UnaryOp op operand =>
      visit_head (ast.unaryop_name op) >>> visit_expr operand
  | ast.Dict keys values => visit_opt_list keys >>> visit_list values
  | ast.List elts ctx | ast.Tuple elts ctx =>
      visit_list elts >>> visit_head (ast.expr_context_name ctx)
  | ast.Compare lhs ops comparators =>
      visit_expr lhs >>>
      (fix go (l : list ast.cmpop) : exn + () :=
         match l with
         | [] => inr ()
         | o :: t => visit_head (ast.cmpop_name o) >>> go t
         end) ops >>>
      visit_list comparators
  | ast.Call func args keywords =>
      visit_expr func >>> visit_list args >>> visit_keywords keywords
  | ast.Constant _ => inr ()
  | ast.Attribute value _ ctx =>
      visit_expr value >>> visit_head (ast.expr_context_name ctx)
  | ast.Subscript value slice ctx =>
      visit_expr value >>> visit_expr slice >>>
      visit_head (ast.expr_context_name ctx)
  | ast.Name _ ctx => visit_head (ast.expr_context_name ctx)
  | ast.Slice lower upper step =>
      visit_o lower >>> visit_o upper >>> visit_o step
  | ast.OtherExpr _ children => visit_list children
  end.

Fixpoint visit_exprs (l : list ast.expr) : exn + () :=
  match l with
  | [] => inr ()
  | x :: t => visit_expr x >>> visit_exprs t
  end.

(** The loops of [generic_visit] over the other list fields of an
    expression, as functions of their own. *)
Fixpoint visit_opt_exprs (l : list (option ast.expr)) : exn + () :=
  match l with
  | [] => inr ()
  | Some x :: t => visit_expr x >>> visit_opt_exprs t
  | None :: t => visit_opt_exprs t
  end.

Fixpoint visit_keywords (l : list (option string * ast.expr)) : exn + () :=
  match l with
  | [] => inr ()
  | (_, v) :: t => visit_head "keyword" >>> visit_expr v >>> visit_keywords t
  end.

Fixpoint visit_cmpops (l : list ast.cmpop) : exn + () :=
  match l with
  | [] => inr ()
  | o :: t => visit_head (ast.cmpop_name o) >>> visit_cmpops t
  end.

(** [visit] on the [arguments] node of a [def]. *)
Definition visit_arguments (a : ast.arguments) : exn + () :=
  visit_head "arguments" >>>
  match a with
  | ast.Arguments names defaults =>
      (fix go (l : list string) : exn + () :=
         match l with
         | [] => inr ()
         | _ :: t => visit_head "arg" >>> go t
         end) names >>>
      visit_exprs defaults
  end.

Fixpoint visit_stmt (node : ast.stmt) : exn + () :=
  let visit_body :=
    fix go (l : list ast.stmt) : exn + () :=
      match l with
      | [] => inr ()
      | x :: t => visit_stmt x >>> go t
      end in
  visit_head (ast.stmt_name node) >>>
  match node with
  | ast.FunctionDef _ args body decorator_list returns =>
      visit_arguments args >>> visit_body body >>>
      visit_exprs decorator_list >>> visit_opt visit_expr returns
  | ast.Return value => visit_opt visit_expr value
  | ast.Assign targets value => visit_exprs targets >>> visit_expr value
  | ast.If test body orelse =>
      visit_expr test >>> visit_body body >>> visit_body orelse
  | ast.Expr value => visit_expr value
  | ast.OtherStmt _ exprs body => visit_exprs exprs >>> visit_body body
  end.

Fixpoint visit_stmts (l : list ast.stmt) : exn + () :=
  match l with
  | [] => inr ()
  | x :: t => visit_stmt x >>> visit_stmts t
  end.

(** [RestrictedASTVisitor.visit(tree)] on a parsed module. *)
Definition visit (tree : ast.mod_) : exn + () :=
  visit_head "Module" >>>
  match tree with ast.Module_ body => visit_stmts body end.

(** ** The world the registered callables act on *)

(** The dataclass [Email] of camel/tools.py; the three fields that
    [send_email] copies from its arguments hold whatever was passed. *)
Record Email := mkEmail {
  sender : string;
  recipient : value;
  subject : value;
  body : value;
  timestamp : string
}.

(** Everything outside the interpreter that a callable reads or changes:
    the replies of the quarantined model, one for each call of the client
    ([inl e] when the client raises [e]), the lines the user types at
    [input()], and the outbox of the e-mail tool. *)
Record World := mkWorld {
  q_llm_reply : nat -> string + string;
  q_llm_calls : nat;
  user_input : nat -> string;
  user_inputs : nat;
  sent : list Email
}.

(** A registered callable, applied as [func( *args, **kwargs)]. *)
Definition pyfunc : Type :=
  list value -> list (string * value) -> World -> (exn + value) * World.

(** Binding of [args] and [kwargs] to the parameters of a plain Python
    function (name and optional default); the values come back in the order
    of the parameters.  The texts of the [TypeError]s are abridged. *)
Fixpoint bind_from (params : list (string * option value))
    (args : list value) (kwargs : list (string * value))
  : exn + list value :=
  match params with
  | [] =>
      match args with
      | [] => inr []
      | _ => inl (TypeError "too many positional arguments")
      end
  | (p, dflt) :: rest =>
      match args with
      | a :: args' =>
          if bool_decide (p ∈ kwargs.*1)
          then inl (TypeError ("got multiple values for argument " ++ p))
          else match bind_from rest args' kwargs with
               | inl e => inl e
               | inr vs => inr (a :: vs)
               end
      | [] =>
          match list_find (fun kv => kv.1 = p) kwargs, dflt with
          | Some (_, (_, v)), _ | None, Some v =>
              match bind_from rest [] kwargs with
              | inl e => inl e
              | inr vs => inr (v :: vs)
              end
          | None, None =>
              inl (TypeError ("missing required argument " ++ p))
          end
      end
  end.

Definition bind_params (params : list (string * option value))
    (args : list value) (kwargs : list (string * value))
  : exn + list value :=
  match list_find (fun kv => kv.1 ∉ params.*1) kwargs with
  | Some (_, (k, _)) =>
      inl (TypeError ("got an unexpected keyword argument " ++ k))
  | None => bind_from params args kwargs
  end.

(** ** camel/interpreter.py: [CaMeLInterpreter] *)

(** The interpreter object, together with the world its callables act on.
    [invoked] is a ghost field: the calls [func( *args, **kwargs)] made by
    [_execute_Call], oldest first. *)
Record CaMeLInterpreter := mkCaMeLInterpreter {
  capability_tracker : CapabilityTracker;
  variables : gmap string value;
  functions : gmap string pyfunc;
  world : World;
  invoked : list (string * list value * list (string * value))
}.

(** [CaMeLInterpreter(capability_tracker)] *)
Definition CaMeLInterpreter_new (tracker : CapabilityTracker) (w : World)
  : CaMeLInterpreter :=
  mkCaMeLInterpreter tracker ∅ ∅ w [].

Definition register_function (self : CaMeLInterpreter) (name : string)
    (func : pyfunc) : CaMeLInterpreter :=
  mkCaMeLInterpreter (capability_tracker self) (variables self)
    (<[name := func]> (functions self)) (world self) (invoked self).

Definition with_tracker (self : CaMeLInterpreter) (t : CapabilityTracker)
  : CaMeLInterpreter :=
  mkCaMeLInterpreter t (variables self) (functions self) (world self)
    (invoked self).

Definition with_variable (self : CaMeLInterpreter) (name : string)
    (v : value) : CaMeLInterpreter :=
  mkCaMeLInterpreter (capability_tracker self) (<[name := v]> (variables self))
    (functions self) (world self) (invoked self).

(** [set_variable(name, value, capabilities=None)] *)
Definition set_variable (self : CaMeLInterpreter) (name : string) (v : value)
    (caps : option CapabilitySet) : CaMeLInterpreter :=
  let self := with_variable self name v in
  match caps with
  | Some c => with_tracker self (assign_capabilities (capability_tracker self) name c)
  | None => self
  end.

Definition get_variable (self : CaMeLInterpreter) (name : string)
  : option value :=
  variables self !! name.

(** Computations of the interpreter: they read and change the interpreter
    and end with a value or a raised exception. *)
Definition M (A : Type) : Type :=
  CaMeLInterpreter -> (exn + A) * CaMeLInterpreter.

Definition ret {A} (a : A) : M A := fun st => (inr a, st).

Definition raise {A} (e : exn) : M A := fun st => (inl e, st).

Definition bind {A B} (m : M A) (k : A -> M B) : M B :=
  fun st =>
    match m st with
    | (inl e, st') => (inl e, st')
    | (inr a, st') => k a st'
    end.

Definition lift {A} (r : exn + A) : M A := fun st => (r, st).

Notation "'let*' x ':=' m 'in' k" := (bind m (fun x => k))
  (at level 10, x name, m at level 100, k at level 200, only parsing).

Definition py_type_name (v : value) : string :=
  match v with
  | VNone => "NoneType"
  | VBool _ => "bool"
  | VInt _ => "int"
  | VStr _ => "str"
  | VFunc _ => "function"
  end.

(** The integer a [bool] or an [int] stands for. *)
Definition as_int (v : value) : option Z :=
  match v with
  | VBool b => Some (if b then 1 else 0)%Z
  | VInt z => Some z
  | _ => None
  end.

(** [a == b] *)
Definition py_eq (a b : value) : bool :=
  match as_int a, as_int b with
  | Some x, Some y => (x =? y)%Z
  | _, _ =>
      match a, b with
      | VNone, VNone => true
      | VStr s, VStr t => String.eqb s t
      | VFunc f, VFunc g => String.eqb f g
      | _, _ => false
      end
  end.

(** [a < b], [a <= b], [a > b], [a >= b], given as the test on integers, the
    test on strings and the operator's symbol. *)
Definition py_order (onZ : Z -> Z -> bool) (onS : string -> string -> bool)
    (sym : string) (a b : value) : exn + bool :=
  match as_int a, as_int b with
  | Some x, Some y => inr (onZ x y)
  | _, _ =>
      match a, b with
      | VStr s, VStr t => inr (onS s t)
      | _, _ =>
          inl (TypeError ("'" ++ sym ++ "' not supported between instances of '"
                          ++ py_type_name a ++ "' and '" ++ py_type_name b
                          ++ "'"))
      end
  end.

(** One step of the loop of [_execute_Compare]: does [left op right] hold? *)
Definition compare_op (op : ast.cmpop) (lhs rhs : value) : exn + bool :=
  match op with
  | ast.Eq => inr (py_eq lhs rhs)
  | ast.NotEq => inr (negb (py_eq lhs rhs))
  | ast.Lt => py_order Z.ltb String.ltb "<" lhs rhs
  | ast.LtE => py_order Z.leb String.leb "<=" lhs rhs
  | ast.Gt => py_order Z.gtb (fun s t => String.ltb t s) ">" lhs rhs
  | ast.GtE => py_order Z.geb (fun s t => String.leb t s) ">=" lhs rhs
  | _ =>
      inl (CaMeLInterpreterError
             ("Unsupported comparison: " ++ ast.cmpop_name op))
  end.

Fixpoint _get_function_name (node : ast.expr) : exn + string :=
  match node with
  | ast.Name id _ => inr id
  | ast.Attribute value attr _ =>
      match _get_function_name value with
      | inl e => inl e
      | inr s => inr (s ++ "." ++ attr)
      end
  | _ => inl (CaMeLInterpreterError "Complex function calls not supported")
  end.

Definition value_of_constant (c : ast.constant) : value :=
  match c with
  | ast.CNone => VNone
  | ast.CBool b => VBool b
  | ast.CInt z => VInt z
  | ast.CStr s => VStr s
  end.

(** [d[k] = v] on a dict kept as the list of its items in insertion order. *)
Fixpoint dict_set {K V} `{EqDecision K} (d : list (K * V)) (k : K) (v : V)
  : list (K * V) :=
  match d with
  | [] => [(k, v)]
  | (k', v') :: t =>
      if decide (k' = k) then (k, v) :: t else (k', v') :: dict_set t k v
  end.

(** The loop collecting [arg_capabilities], and the one collecting
    [source_vars] in [_execute_Assign]. *)
Definition name_of (e : ast.expr) : option string :=
  match e with ast.Name id _ => Some id | _ => None end.

Definition arg_capabilities_of (tracker : CapabilityTracker)
    (args : list ast.expr) : list CapabilitySet :=
  omap (fun a => name_of a ≫= get_capabilities tracker) args.

Definition source_vars_of (args : list ast.expr) : list string :=
  omap name_of args.

(** [func( *args, **kwargs)]: a key that is not a string is refused before
    [func] starts; otherwise the call is logged and [func] runs. *)
Definition call_function (func_name : string) (func : pyfunc)
    (args : list value) (kwargs : list (option string * value)) : M value :=
  fun st =>
    match mapM (fun kv => (fun k => (k, kv.2)) <$> kv.1) kwargs with
    | None => (inl (TypeError "keywords must be strings"), st)
    | Some kw =>
        let '(r, w) := func args kw (world st) in
        (r, mkCaMeLInterpreter (capability_tracker st) (variables st)
              (functions st) w (invoked st ++ [(func_name, args, kw)]))
    end.

(** The second half of [_execute_Call], once the arguments are evaluated. *)
Definition call_checked (func_name : string) (arg_nodes : list ast.expr)
    (args : list value) (kwargs : list (option string * value)) : M value :=
  fun st =>
    let arg_capabilities :=
      arg_capabilities_of (capability_tracker st) arg_nodes in
    match check_operation (capability_tracker st) func_name
            {[ "args" := CtxArgs args;
               "kwargs" := CtxKwargs kwargs;
               "arg_capabilities" := CtxCaps arg_capabilities ]} with
    | inl e => (inl e, st)
    | inr false =>
        (inl (CaMeLInterpreterError
                ("Operation " ++ func_name ++ " blocked by security policy")),
         st)
    | inr true =>
        match functions st !! func_name with
        | Some func => call_function func_name func args kwargs st
        | None => (inl (KeyError func_name), st)
        end
    end.

Definition no_handler {A} (cls : string) : M A :=
  raise (CaMeLInterpreterError ("No handler for " ++ cls)).

(** [_execute_ast] on an expression: the handlers [_execute_Call],
    [_execute_Name], [_execute_Constant] and [_execute_Compare]; every other
    class has no [_execute_<class>] method. *)
Fixpoint _execute_expr (node : ast.expr) : M value :=
  match node with
  | ast.Call func arg_nodes keywords =>
      let* func_name := lift (_get_function_name func) in
      let* known := (fun st => (inr (bool_decide (is_Some (functions st !! func_name))), st)) in
      if negb known
      then raise (CaMeLInterpreterError ("Unknown function: " ++ func_name))
      else
        let* args :=
          (fix go (l : list ast.expr) : M (list value) :=
             match l with
             | [] => ret []
             | a :: t =>
                 let* v := _execute_expr a in
                 let* vs := go t in
                 ret (v :: vs)
             end) arg_nodes in
        let* kwargs :=
          (fix go (l : list (option string * ast.expr))
                  (acc : list (option string * value))
             : M (list (option string * value)) :=
             match l with
             | [] => ret acc
             | (k, e) :: t =>
                 let* v := _execute_expr e in
                 go t (dict_set acc k v)
             end) keywords [] in
        call_checked func_name arg_nodes args kwargs
  | ast.Name id _ =>
      fun st =>
        match variables st !! id with
        | Some v => (inr v, st)
        | None =>
            if bool_decide (is_Some (functions st !! id))
            then (inr (VFunc id), st)
            else (inl (CaMeLInterpreterError ("Undefined variable: " ++ id)),
                  st)
        end
  | ast.Constant c => ret (value_of_constant c)
  | ast.Compare lhs ops comparators =>
      let* first := _execute_expr lhs in
      (fix go (cs : list ast.expr) (ops : list ast.cmpop) (lhs : value)
         {struct cs} : M value :=
         match ops, cs with
         | op :: ops', c :: cs' =>
             let* rhs := _execute_expr c in
             let* holds := lift (compare_op op lhs rhs) in
             if holds then go cs' ops' rhs else ret (VBool false)
         | _, _ => ret (VBool true)
         end) comparators ops first
  | _ => no_handler (ast.expr_name node)
  end.

(** The three loops of [_execute_expr], as functions of their own: the list
    of positional arguments, the dict of keyword arguments, the chain of a
    comparison. *)
Fixpoint _execute_exprs (l : list ast.expr) : M (list value) :=
  match l with
  | [] => ret []
  | a :: t =>
      let* v := _execute_expr a in
      let* vs := _execute_exprs t in
      ret (v :: vs)
  end.

Fixpoint _execute_keywords (l : list (option string * ast.expr))
    (acc : list (option string * value)) : M (list (option string * value)) :=
  match l with
  | [] => ret acc
  | (k, e) :: t =>
      let* v := _execute_expr e in
      _execute_keywords t (dict_set acc k v)
  end.

Fixpoint compare_chain (cs : list ast.expr) (ops : list ast.cmpop)
    (lhs : value) {struct cs} : M value :=
  match ops, cs with
  | op :: ops', c :: cs' =>
      let* rhs := _execute_expr c in
      let* holds := lift (compare_op op lhs rhs) in
      if holds then compare_chain cs' ops' rhs else ret (VBool false)
  | _, _ => ret (VBool true)
  end.

(** The tracker update that ends [_execute_Assign]. *)
Definition track_assignment (var_name : string) (value_node : ast.expr)
    (tracker : CapabilityTracker) : CapabilityTracker :=
  match value_node with
  | ast.Call _ arg_nodes _ =>
      match source_vars_of arg_nodes with
      | [] => tracker
      | source_vars => derive_capabilities tracker var_name source_vars
      end
  | ast.Name id _ =>
      match get_capabilities tracker id with
      | Some source_caps => assign_capabilities tracker var_name source_caps
      | None => tracker
      end
  | _ => tracker
  end.

Definition _execute_Assign (targets : list ast.expr) (value_node : ast.expr)
  : M value :=
  match targets with
  | [target] =>
      match target with
      | ast.Name var_name _ =>
          let* v := _execute_expr value_node in
          fun st =>
            let st := with_variable st var_name v in
            (inr VNone,
             with_tracker st
               (track_assignment var_name value_node (capability_tracker st)))
      | _ =>
          raise (CaMeLInterpreterError
                   "Only simple variable assignment supported")
      end
  | _ =>
      raise (CaMeLInterpreterError "Multiple assignment targets not supported")
  end.

(** [_execute_ast] on a statement: [_execute_Expr], [_execute_Assign],
    [_execute_Return] and [_execute_If]. *)
Fixpoint _execute_stmt (node : ast.stmt) : M value :=
  let run_body :=
    fix go (l : list ast.stmt) (result : value) : M value :=
      match l with
      | [] => ret result
      | s :: t => let* r := _execute_stmt s in go t r
      end in
  match node with
  | ast.Expr value => _execute_expr value
  | ast.Assign targets value => _execute_Assign targets value
  | ast.Return (Some value) => _execute_expr value
  | ast.Return None => ret VNone
  | ast.If test body orelse =>
      let* test_result := _execute_expr test in
      if truthy test_result then run_body body VNone
      else match orelse with
           | [] => ret VNone
           | _ => run_body orelse VNone
           end
  | _ => no_handler (ast.stmt_name node)
  end.

Fixpoint run_stmts (l : list ast.stmt) (result : value) : M value :=
  match l with
  | [] => ret result
  | s :: t => let* r := _execute_stmt s in run_stmts t r
  end.

Definition _execute_Module (node : ast.mod_) : M value :=
  match node with ast.Module_ body => run_stmts body VNone end.

(** The handler [except Exception as e] of [execute]. *)
Definition wrap_error (e : exn) : exn :=
  CaMeLInterpreterError ("Error executing CaMeL code: " ++ exn_str e).

(** [execute(code)] from the tree that [ast.parse(code)] returned; a text
    that does not parse never reaches the validator. *)
Definition execute (tree : ast.mod_) : M value :=
  fun st =>
    match visit tree with
    | inl e => (inl (wrap_error e), st)
    | inr _ =>
        match _execute_Module tree st with
        | (inl e, st') => (inl (wrap_error e), st')
        | (inr v, st') => (inr v, st')
        end
    end.

(** ** camel/llm.py: the quarantined model and its output validator *)

(** The characters of the literal [invalid_chars]; the fourth is the
    double quote. *)
Definition invalid_chars : list ascii :=
  [ "<"; ">"; ":"; ascii_of_nat 34; "/"; "\"; "|"; "?"; "*" ]%char.

Definition _validate_output (output : string) (schema : value)
  : exn + string :=
  let output := pystr.strip output in
  if py_eq schema (VStr "email") then
    if negb (pystr.contains "@" output) || negb (pystr.contains "." output)
    then inl (ValueError ("Output does not match email schema: " ++ output))
    else inr output
  else if py_eq schema (VStr "string") then
    if (1000 <? String.length output)%nat
    then inl (ValueError ("String output too long: "
                          ++ pystr.of_nat (String.length output)
                          ++ " characters"))
    else inr output
  else if py_eq schema (VStr "filename") then
    if existsb (fun char => pystr.contains_char char output) invalid_chars
    then inl (ValueError ("Output contains invalid filename characters: "
                          ++ output))
    else inr output
  else inr output.

(** [BaseLLM._call_llm] of the quarantined model: the next reply of the
    client, or the [RuntimeError] made from its failure. *)
Definition _call_llm (w : World) : (exn + string) * World :=
  let w' := mkWorld (q_llm_reply w) (S (q_llm_calls w)) (user_input w)
                    (user_inputs w) (sent w) in
  match q_llm_reply w (q_llm_calls w) with
  | inl e => (inl (RuntimeError ("LLM call failed: " ++ e)), w')
  | inr content => (inr content, w')
  end.

(** [QuarantinedLLM.query]; the result is the [content] of the response.
    The two prompts are built with f-strings, which accept any value. *)
Definition query (prompt data output_schema : value) (w : World)
  : (exn + string) * World :=
  match _call_llm w with
  | (inl e, w') => (inl e, w')
  | (inr result, w') => (_validate_output result output_schema, w')
  end.

(** ** camel/tools.py: the e-mail tool and the tool wrapper *)

(** [UserInteractionTool.require_user_approval]; both arguments are only
    printed. *)
Definition require_user_approval (w : World) : bool * World :=
  let response := pystr.strip (pystr.lower (user_input w (user_inputs w))) in
  (bool_decide (response = "y") || bool_decide (response = "yes"),
   mkWorld (q_llm_reply w) (q_llm_calls w) (user_input w)
           (S (user_inputs w)) (sent w)).

(** [EmailTool.send_email(recipient, subject, body, attachment=None)] *)
Definition send_email : pyfunc :=
  fun args kwargs w =>
    match bind_params [("recipient", None); ("subject", None);
                       ("body", None); ("attachment", Some VNone)]
                      args kwargs with
    | inr [to; subj; text; _] =>
        let email :=
          mkEmail "user@company.com" to subj text "2025-01-01T12:00:00" in
        (inr (VBool true),
         mkWorld (q_llm_reply w) (q_llm_calls w) (user_input w)
                 (user_inputs w) (sent w ++ [email]))
    | inr _ => (inl (TypeError "send_email()"), w)
    | inl e => (inl e, w)
    end.

(** [CaMeLToolRegistry._wrap_tool(func, capabilities, requires_approval)];
    the declared [capabilities] are stored as an attribute of the wrapper
    and read by nothing. *)
Definition _wrap_tool (func : pyfunc) (requires_approval : bool) : pyfunc :=
  fun args kwargs w =>
    if requires_approval then
      let '(approved, w') := require_user_approval w in
      if negb approved
      then (inr (VStr "Action denied by user"), w')
      else func args kwargs w'
    else func args kwargs w.

(** ** camel/core.py: [CaMeLSystem] *)

(** [_query_quarantined_llm(prompt, data, output_schema)], as registered
    under the name [query_quarantined_llm].  The slice [prompt[:50]] of the
    first [print] needs a string. *)
Definition _query_quarantined_llm : pyfunc :=
  fun args kwargs w =>
    match bind_params [("prompt", None); ("data", None);
                       ("output_schema", None)] args kwargs with
    | inr [prompt; data; output_schema] =>
        match prompt with
        | VStr _ =>
            match query prompt data output_schema w with
            | (inl e, w') =>
                (inl (RuntimeError ("Q-LLM processing failed: " ++ exn_str e)),
                 w')
            | (inr result, w') => (inr (VStr result), w')
            end
        | _ =>
            (inl (TypeError ("'" ++ py_type_name prompt
                             ++ "' object is not subscriptable")), w)
        end
    | inr _ => (inl (TypeError "_query_quarantined_llm()"), w)
    | inl e => (inl e, w)
    end.

(** [_setup_security_policies] *)
Definition _setup_security_policies (tracker : CapabilityTracker)
  : CapabilityTracker :=
  let email_policy :=
    EmailSecurityPolicy.init {[ "company.com"; "trusted-partner.com" ]} None in
  let tracker := add_policy tracker (EmailPolicy email_policy) in
  let file_policy :=
    mkFileAccessPolicy {[ "/documents/"; "/shared/"; "/public/" ]} in
  add_policy tracker (FilePolicy file_policy).

(** The part of [_setup_system] that the properties below exercise: the
    wrapped e-mail tool, the quarantined model, the two default policies. *)
Definition _setup_system (self : CaMeLInterpreter) : CaMeLInterpreter :=
  let self := register_function self "send_email" (_wrap_tool send_email true) in
  let self :=
    register_function self "query_quarantined_llm" _query_quarantined_llm in
  with_tracker self (_setup_security_policies (capability_tracker self)).

(** [CaMeLSystem(...)]: a fresh tracker and interpreter, then
    [_setup_system]. *)
Definition CaMeLSystem_new (w : World) : CaMeLInterpreter :=
  _setup_system (CaMeLInterpreter_new CapabilityTracker_new w).

Definition set_trusted_data (self : CaMeLInterpreter) (variable_name : string)
    (v : value) : CaMeLInterpreter :=
  set_variable self variable_name v
    (Some (add CapabilitySet_new (Capability_new TRUSTED "user"))).

Definition set_untrusted_data (self : CaMeLInterpreter)
    (variable_name : string) (v : value) (src : string) : CaMeLInterpreter :=
  set_variable self variable_name v
    (Some (add CapabilitySet_new (Capability_new UNTRUSTED src))).

(** ** camel/mcp_security.py: [ToolShadowingDetector] *)

Record ToolShadowingDetector := mkToolShadowingDetector {
  registered_tools : gset string;
  tool_sources : gmap string string;
  suspicious_duplicates : list string
}.

(** [ToolShadowingDetector()] *)
Definition ToolShadowingDetector_new : ToolShadowingDetector :=
  mkToolShadowingDetector ∅ ∅ [].

Definition register_tool (self : ToolShadowingDetector)
    (tool_name src : string) : bool * ToolShadowingDetector :=
  if bool_decide (tool_name ∈ registered_tools self)
     && negb (bool_decide (tool_sources self !! tool_name = Some src))
  then
    (false,
     mkToolShadowingDetector (registered_tools self) (tool_sources self)
       (suspicious_duplicates self ++ [tool_name]))
  else
    (true,
     mkToolShadowingDetector (registered_tools self ∪ {[ tool_name ]})
       (<[tool_name := src]> (tool_sources self))
       (suspicious_duplicates self)).

Definition get_tool_conflicts (self : ToolShadowingDetector) : list string :=
  suspicious_duplicates self.

(** ** The schema rules in the words of the specification *)

Definition is_digit (c : ascii) : bool :=
  let n := nat_of_ascii c in ((48 <=? n) && (n <=? 57))%nat.

Fixpoint all_digits (s : string) : bool :=
  match s with
  | EmptyString => true
  | String c t => is_digit c && all_digits t
  end.

(** "parseable as a signed decimal integer": an optional sign, then one
    digit or more. *)
Definition spec_integer_ok (output : string) : bool :=
  match output with
  | String c t =>
      if Ascii.eqb c "+" || Ascii.eqb c "-"
      then negb (String.eqb t "") && all_digits t
      else all_digits output
  | EmptyString => false
  end.

(** "[c] occurs in [s]", said without the search: [s] splits around [c]. *)
Definition occurs (c : ascii) (s : string) : Prop :=
  exists pre post : string, s = pre ++ String c post.

(** When the validator, as written, refuses a stripped output [s] for a
    schema: the three rules it has, and no other. *)
Definition refused (schema s : string) : Prop :=
  (schema = "email" /\ ~ (occurs "@" s /\ occurs "." s))
  \/ (schema = "string" /\ 1000 < String.length s)
  \/ (schema = "filename" /\ exists c, c ∈ invalid_chars /\ occurs c s).

(** ** The classes of the nodes of a tree *)

(** The class names of all nodes of an expression, the node first, then
    its children field by field in the order of [_fields]. *)
Fixpoint classes_expr (node : ast.expr) : list string :=
  let of_list :=
    fix go (l : list ast.expr) : list string :=
      match l with
      | [] => []
      | x :: t => (classes_expr x ++ go t)%list
      end in
  let of_opt_list :=
    fix go (l : list (option ast.expr)) : list string :=
      match l with
      | [] => []
      | Some x :: t => (classes_expr x ++ go t)%list
      | None :: t => go t
      end in
  let of_keywords :=
    fix go (l : list (option string * ast.expr)) : list string :=
      match l with
      | [] => []
      | (_, v) :: t => ("keyword" :: classes_expr v ++ go t)%list
      end in
  let of_opt (o : option ast.expr) : list string :=
    match o with Some x => classes_expr x | None => [] end in
  (ast.expr_name node ::
   match node with
   | ast.BoolOp op values => ast.boolop_name op :: of_list values
   | ast.BinOp lhs op rhs =>
       classes_expr lhs ++ ast.operator_name op :: classes_expr rhs
   | ast.UnaryOp op operand => ast.unaryop_name op :: classes_expr operand
   | ast.Dict keys values => of_opt_list keys ++ of_list values
   | ast.List elts ctx | ast.Tuple elts ctx =>
       of_list elts ++ [ast.expr_context_name ctx]
   | ast.Compare lhs ops comparators =>
       classes_expr lhs ++ map ast.cmpop_name ops ++ of_list comparators
   | ast.Call func args keywords =>
       classes_expr func ++ of_list args ++ of_keywords keywords
   | ast.Constant _ => []
   | ast.Attribute value _ ctx =>
       classes_expr value ++ [ast.expr_context_name ctx]
   | ast.Subscript value slice ctx =>
       classes_expr value ++ classes_expr slice
       ++ [ast.expr_context_name ctx]
   | ast.Name _ ctx => [ast.expr_context_name ctx]
   | ast.Slice lower upper step => of_opt lower ++ of_opt upper ++ of_opt step
   | ast.OtherExpr _ children => of_list children
   end)%list.

Fixpoint classes_exprs (l : list ast.expr) : list string :=
  match l with
  | [] => []
  | x :: t => (classes_expr x ++ classes_exprs t)%list
  end.

Fixpoint classes_opt_exprs (l : list (option ast.expr)) : list string :=
  match l with
  | [] => []
  | Some x :: t => (classes_expr x ++ classes_opt_exprs t)%list
  | None :: t => classes_opt_exprs t
  end.

Fixpoint classes_keywords (l : list (option string * ast.expr))
  : list string :=
  match l with
  | [] => []
  | (_, v) :: t => ("keyword" :: classes_expr v ++ classes_keywords t)%list
  end.

Definition classes_arguments (a : ast.arguments) : list string :=
  match a with
  | ast.Arguments names defaults =>
      ("arguments" :: map (fun _ => "arg") names ++ classes_exprs defaults)%list
  end.

Fixpoint classes_stmt (node : ast.stmt) : list string :=
  let of_body :=
    fix go (l : list ast.stmt) : list string :=
      match l with
      | [] => []
      | x :: t => (classes_stmt x ++ go t)%list
      end in
  (ast.stmt_name node ::
   match node with
   | ast.FunctionDef _ args body decorator_list returns =>
       classes_arguments args ++ of_body body ++ classes_exprs decorator_list
       ++ match returns with Some r => classes_expr r | None => [] end
   | ast.Return value =>
       match value with Some v => classes_expr v | None => [] end
   | ast.Assign targets value => classes_exprs targets ++ classes_expr value
   | ast.If test body orelse =>
       classes_expr test ++ of_body body ++ of_body orelse
   | ast.Expr value => classes_expr value
   | ast.OtherStmt _ exprs body => classes_exprs exprs ++ of_body body
   end)%list.

Fixpoint classes_stmts (l : list ast.stmt) : list string :=
  match l with
  | [] => []
  | x :: t => (classes_stmt x ++ classes_stmts t)%list
  end.

Definition classes_mod (tree : ast.mod_) : list string :=
  match tree with ast.Module_ body => "Module" :: classes_stmts body end.

(** A class the validator refuses: forbidden, or not on the whitelist. *)
Definition offending (cls : string) : Prop :=
  cls ∈ FORBIDDEN_CONSTRUCTS \/ cls ∉ ALLOWED_NODES.

(** The message of the validator for an offending class. *)
Definition rejection (cls : string) : exn :=
  CaMeLInterpreterError
    ((if bool_decide (cls ∈ FORBIDDEN_CONSTRUCTS)
      then "Forbidden construct: " else "Unknown/disallowed construct: ")
     ++ cls).

(** The validator run over a list of class names, first to last. *)
Fixpoint scan (l : list string) : exn + () :=
  match l with
  | [] => inr ()
  | cls :: t => visit_head cls >>> scan t
  end.

(** ** Assignments that write no label *)

(** The assigned expression is neither a bare name with labels nor a call
    with a labelled bare name among its positional arguments. *)
Definition no_label_source (tracker : CapabilityTracker) (e : ast.expr)
  : Prop :=
  match e with
  | ast.Name y _ => get_capabilities tracker y = None
  | ast.Call _ args _ =>
      forall y, y ∈ source_vars_of args -> get_capabilities tracker y = None
  | _ => True
  end.

(** What the interpreter keeps while it evaluates an expression. *)
Definition same_frame (st' st : CaMeLInterpreter) : Prop :=
  capability_tracker st' = capability_tracker st
  /\ variables st' = variables st
  /\ functions st' = functions st.

Definition keeps_frame {A} (m : M A) : Prop :=
  forall st, same_frame (m st).2 st.

(** ** Concrete inputs used by the examples below *)

Definition trusted_user : CapabilitySet :=
  add CapabilitySet_new (Capability_new TRUSTED "user").

Definition untrusted_external : CapabilitySet :=
  add CapabilitySet_new (Capability_new UNTRUSTED "external").

(** A tracker in which [x] carries [TRUSTED/user] and nothing else is
    bound. *)
Definition tracker_x_trusted : CapabilityTracker :=
  assign_capabilities CapabilityTracker_new "x" trusted_user.

(** A tracker in which [y] carries [UNTRUSTED/external]. *)
Definition tracker_y_untrusted : CapabilityTracker :=
  assign_capabilities CapabilityTracker_new "y" untrusted_external.

(** The replies of a quarantined model that answers every query with the
    attacker's address, and a user who approves every request. *)
Definition world_approving : World :=
  mkWorld (fun _ => inr "attacker@evil.com") 0 (fun _ => "y") 0 [].

(** A fresh system. *)
Definition system0 : CaMeLInterpreter := CaMeLSystem_new world_approving.

(** The e-mail policy that [_setup_security_policies] registers. *)
Definition default_email_policy : EmailSecurityPolicy :=
  EmailSecurityPolicy.init {[ "company.com"; "trusted-partner.com" ]} None.

(** A fresh system in which [email] holds the attacker's address and is
    labelled [UNTRUSTED/external]. *)
Definition system_email_untrusted : CaMeLInterpreter :=
  set_untrusted_data system0 "email" (VStr "attacker@evil.com") "external".

(** A fresh system in which [notes] holds a text and carries no label, as
    after [notes = get_last_meeting_notes()]. *)
Definition system_notes : CaMeLInterpreter :=
  set_variable system0 "notes" (VStr "Bob's email: bob@company.com") None.

(** A fresh interpreter in which [x] is labelled [UNTRUSTED/external]. *)
Definition interp_x_untrusted : CaMeLInterpreter :=
  set_variable (CaMeLInterpreter_new CapabilityTracker_new world_approving)
    "x" (VStr "payload") (Some untrusted_external).

Definition str (s : string) : ast.expr := ast.Constant (ast.CStr s).
Definition int (z : Z) : ast.expr := ast.Constant (ast.CInt z).
Definition load (id : string) : ast.expr := ast.Name id ast.Load.
Definition assign (id : string) (e : ast.expr) : ast.stmt :=
  ast.Assign [ast.Name id ast.Store] e.

(** A fresh system in which [y] holds a text labelled
    [UNTRUSTED/external]. *)
Definition system_y_untrusted : CaMeLInterpreter :=
  set_untrusted_data system0 "y" (VStr "raw text") "external".

(** The call [query_quarantined_llm("Summarise", y, "string")] *)
Definition call_summarise_y : ast.expr :=
  ast.Call (load "query_quarantined_llm")
    [str "Summarise"; load "y"; str "string"] [].

(** [import os] *)
Definition prog_import_os : ast.mod_ :=
  ast.Module_ [ast.OtherStmt ast.Import [] []].

(** [send_email(recipient=email, subject="x", body="y")] *)
Definition prog_send_email_var : ast.mod_ :=
  ast.Module_
    [ast.Expr (ast.Call (load "send_email") []
       [(Some "recipient", load "email"); (Some "subject", str "x");
        (Some "body", str "y")])].

(** [send_email(email, "x", "y")] *)
Definition prog_send_email_positional : ast.mod_ :=
  ast.Module_
    [ast.Expr (ast.Call (load "send_email") [load "email"; str "x"; str "y"]
                        [])].

(** [send_email(recipient="attacker@evil.com", subject="x", body="y")] *)
Definition prog_send_email_literal : ast.mod_ :=
  ast.Module_
    [ast.Expr (ast.Call (load "send_email") []
       [(Some "recipient", str "attacker@evil.com"); (Some "subject", str "x");
        (Some "body", str "y")])].

(** [x = query_quarantined_llm("Extract Bob's email address",
    "Bob's email: bob@company.com", "email")] *)
Definition prog_extract_literal : ast.mod_ :=
  ast.Module_
    [assign "x"
       (ast.Call (load "query_quarantined_llm")
          [str "Extract Bob's email address";
           str "Bob's email: bob@company.com"; str "email"] [])].

(** [x = query_quarantined_llm("Extract Bob's email address", notes,
    output_schema="email")] *)
Definition prog_extract_notes : ast.mod_ :=
  ast.Module_
    [assign "x"
       (ast.Call (load "query_quarantined_llm")
          [str "Extract Bob's email address"; load "notes"]
          [(Some "output_schema", str "email")])].

(** [x = 5] *)
Definition prog_x_is_5 : ast.mod_ := ast.Module_ [assign "x" (int 5)].

(** Programs made of whitelisted classes only, each with the class for
    which the interpreter has no [_execute_] method:
    [x = 1 + 2], [1 - 2], [2 * 3], [4 / 2], [True and False], [True or False],
    [-1], [+1], [not True], [x.attr], [x[0]], [x[0:1]], [[1]], [(1, 2)],
    [{"k": 1}]. *)
Definition binop (op : ast.operator) (a b : Z) : ast.mod_ :=
  ast.Module_ [ast.Expr (ast.BinOp (int a) op (int b))].

Definition unhandled_programs : list (ast.mod_ * string) :=
  [ (ast.Module_ [assign "x" (ast.BinOp (int 1) ast.Add (int 2))], "BinOp");
    (binop ast.Sub 1 2, "BinOp");
    (binop ast.Mult 2 3, "BinOp");
    (binop ast.Div 4 2, "BinOp");
    (ast.Module_
       [ast.Expr (ast.BoolOp ast.And
                    [ast.Constant (ast.CBool true);
                     ast.Constant (ast.CBool false)])], "BoolOp");
    (ast.Module_
       [ast.Expr (ast.BoolOp ast.Or
                    [ast.Constant (ast.CBool true);
                     ast.Constant (ast.CBool false)])], "BoolOp");
    (ast.Module_ [ast.Expr (ast.UnaryOp ast.USub (int 1))], "UnaryOp");
    (ast.Module_ [ast.Expr (ast.UnaryOp ast.UAdd (int 1))], "UnaryOp");
    (ast.Module_
       [ast.Expr (ast.UnaryOp ast.Not (ast.Constant (ast.CBool true)))],
     "UnaryOp");
    (ast.Module_ [ast.Expr (ast.Attribute (load "x") "attr" ast.Load)],
     "Attribute");
    (ast.Module_ [ast.Expr (ast.Subscript (load "x") (int 0) ast.Load)],
     "Subscript");
    (ast.Module_
       [ast.Expr (ast.Subscript (load "x")
                    (ast.Slice (Some (int 0)) (Some (int 1)) None) ast.Load)],
     "Subscript");
    (ast.Module_ [ast.Expr (ast.List [int 1] ast.Load)], "List");
    (ast.Module_ [ast.Expr (ast.Tuple [int 1; int 2] ast.Load)], "Tuple");
    (ast.Module_ [ast.Expr (ast.Dict [Some (str "k")] [int 1])], "Dict") ].

(** ** Further inputs for the examples *)

Definition read_file_cap : CapabilitySet :=
  add CapabilitySet_new (Capability_new READ "file").

(** A tracker in which [a] carries [READ/file] and [b] carries
    [UNTRUSTED/external]. *)
Definition tracker_a_b : CapabilityTracker :=
  assign_capabilities
    (assign_capabilities CapabilityTracker_new "a" read_file_cap)
    "b" untrusted_external.

(** Three policies: one that allows every operation, one that refuses every
    operation, one that raises. *)
Definition allow_all : SecurityPolicy := CustomPolicy (fun _ _ _ => inr true).
Definition deny_all : SecurityPolicy := CustomPolicy (fun _ _ _ => inr false).
Definition raising : SecurityPolicy :=
  CustomPolicy (fun _ _ _ => inl (RuntimeError "policy failure")).

(** "[needle] occurs in [hay]", said without the search. *)
Definition substring_of (needle hay : string) : Prop :=
  exists pre post : string, hay = pre ++ needle ++ post.

(** The context of a direct call [policy.check(op, tracker, recipient=var,
    recipient_value=r)], as in the unit tests. *)
Definition recipient_ctx (var r : string) : gmap string ctx_value :=
  {[ "recipient" := CtxValue (VStr var);
     "recipient_value" := CtxValue (VStr r) ]}.

(** The context of a direct call [policy.check(op, tracker, path=var,
    path_value=pv)]. *)
Definition path_ctx (var pv : string) : gmap string ctx_value :=
  {[ "path" := CtxValue (VStr var); "path_value" := CtxValue (VStr pv) ]}.

(** The file policy that [_setup_security_policies] registers. *)
Definition default_file_policy : FileAccessPolicy :=
  mkFileAccessPolicy {[ "/documents/"; "/shared/"; "/public/" ]}.

(** A recipient is on the deny list when one of the blocked domains occurs
    in its lower-cased text. *)
Definition on_deny_list (p : EmailSecurityPolicy) (r : string) : Prop :=
  exists bad, bad ∈ blocked_domains p /\ substring_of bad (pystr.lower r).

(** ** The effects of an execution *)

(** The keyword dict of a call whose keys are all strings. *)
Definition string_keys (kwargs : list (option string * value))
  : option (list (string * value)) :=
  mapM (fun kv => (fun k => (k, kv.2)) <$> kv.1) kwargs.

(** One effect of the interpreter on its own state: the call of a
    registered function that the policies have just allowed, or the
    binding made by an assignment. *)
Inductive effect : CaMeLInterpreter -> CaMeLInterpreter -> Prop :=
| effect_call (st : CaMeLInterpreter) (name : string) (func : pyfunc)
    (args : list value) (kwargs : list (option string * value))
    (kw : list (string * value)) (caps : list CapabilitySet)
    (r : exn + value) (w : World) :
    functions st !! name = Some func ->
    check_operation (capability_tracker st) name
      {[ "args" := CtxArgs args;
         "kwargs" := CtxKwargs kwargs;
         "arg_capabilities" := CtxCaps caps ]} = inr true ->
    string_keys kwargs = Some kw ->
    func args kw (world st) = (r, w) ->
    effect st
      (mkCaMeLInterpreter (capability_tracker st) (variables st)
         (functions st) w (invoked st ++ [(name, args, kw)]))
| effect_assign (st : CaMeLInterpreter) (x : string) (v : value)
    (e : ast.expr) :
    effect st
      (with_tracker (with_variable st x v)
         (track_assignment x e (capability_tracker st))).

(** A computation whose whole effect on the interpreter is a sequence of
    such steps. *)
Definition effectful {A} (m : M A) : Prop :=
  forall st, rtc effect st (m st).2.

(** A logged call that the policy list [pols] allowed, on some state of
    the variable labels, and that went to a function of the table. *)
Definition allowed_call (pols : list SecurityPolicy)
    (table : gmap string pyfunc)
    (call : string * list value * list (string * value)) : Prop :=
  exists (vc : gmap string CapabilitySet)
         (kwargs : list (option string * value)) (caps : list CapabilitySet),
    is_Some (table !! call.1.1)
    /\ string_keys kwargs = Some call.2
    /\ check_operation (mkCapabilityTracker vc pols) call.1.1
         {[ "args" := CtxArgs call.1.2;
            "kwargs" := CtxKwargs kwargs;
            "arg_capabilities" := CtxCaps caps ]} = inr true.

(** The user never answers [y] or [yes] to an approval request. *)
Definition never_approves (w : World) : Prop :=
  forall n,
    pystr.strip (pystr.lower (user_input w n)) <> "y"
    /\ pystr.strip (pystr.lower (user_input w n)) <> "yes".

(** A callable that, while the user never approves, leaves the outbox and
    the user's answers as they are. *)
Definition quiet (f : pyfunc) : Prop :=
  forall args kw w,
    never_approves w ->
    sent (f args kw w).2 = sent w
    /\ user_input (f args kw w).2 = user_input w.

(** A user who declines every request. *)
Definition world_declining : World :=
  mkWorld (fun _ => inr "attacker@evil.com") 0 (fun _ => "No") 0 [].

(** An interpreter with [send_email] registered unwrapped and a policy
    that refuses every operation. *)
Definition interp_deny_all : CaMeLInterpreter :=
  register_function
    (CaMeLInterpreter_new (add_policy CapabilityTracker_new deny_all)
       world_approving)
    "send_email" send_email.

(** A statement that holds a function definition: a [def], or an [if]
    with such a statement in one of its branches. *)
Inductive contains_def : ast.stmt -> Prop :=
| def_here name args body decorators returns :
    contains_def (ast.FunctionDef name args body decorators returns)
| def_in_body test body orelse s :
    s ∈ body -> contains_def s -> contains_def (ast.If test body orelse)
| def_in_orelse test body orelse s :
    s ∈ orelse -> contains_def s -> contains_def (ast.If test body orelse).

(** [if True:] followed by [def f(): return 1] *)
Definition prog_def_in_if : ast.mod_ :=
  ast.Module_
    [ast.If (ast.Constant (ast.CBool true))
       [ast.FunctionDef "f" (ast.Arguments [] [])
          [ast.Return (Some (int 1))] [] None] []].

(** A fresh system whose user declines every request. *)
Definition system_declining : CaMeLInterpreter :=
  CaMeLSystem_new world_declining.

(** A fresh system in which [src] holds a text labelled [TRUSTED/user]. *)
Definition system_src_trusted : CaMeLInterpreter :=
  set_trusted_data system0 "src" (VStr "hello").

(** ** camel/mcp_security.py: [MCPSecurityPolicy] *)

Record MCPToolRule := mkMCPToolRule {
  rule_tool_name : string;
  allowed_operations : gset string;
  blocked_patterns : gset string;
  rule_requires_approval : bool;
  max_calls_per_session : Z
}.

(** The policy object: its rules, its per-operation call counters and the
    list of recorded exports. *)
Record MCPSecurityPolicy := mkMCPSecurityPolicy {
  tool_rules : gmap string MCPToolRule;
  call_counts : gmap string nat;
  session_data_exports : list string
}.

Module MCPSecurityPolicy.

(** [_setup_default_rules] *)
Definition _setup_default_rules (self : MCPSecurityPolicy)
  : MCPSecurityPolicy :=
  let email_rule :=
    mkMCPToolRule "send_email" {[ "send" ]}
      {[ "attacker"; "evil"; "malicious"; "hacker";
         "exfiltrate"; "steal"; "dump"; "leak" ]}
      true 5 in
  let file_rule :=
    mkMCPToolRule "read_file" {[ "read" ]}
      {[ "../"; "../../"; "/etc/"; "/root/"; "passwords";
         "secrets"; "keys"; "tokens" ]}
      false 20 in
  let support_rule :=
    mkMCPToolRule "create_followup_task" {[ "create" ]}
      {[ "exfiltrated"; "attacker"; "evil"; "dump"; "steal" ]}
      true 3 in
  mkMCPSecurityPolicy
    (<["create_followup_task" := support_rule]>
       (<["read_file" := file_rule]>
          (<["send_email" := email_rule]> (tool_rules self))))
    (call_counts self) (session_data_exports self).

(** [MCPSecurityPolicy()] *)
Definition init : MCPSecurityPolicy :=
  _setup_default_rules (mkMCPSecurityPolicy ∅ ∅ []).

(** The test of the inner loops of [check] on one argument: a string
    argument whose lower-cased text holds a blocked pattern. *)
Definition blocked_argument (rule : MCPToolRule) (arg_value : ctx_value)
  : bool :=
  match arg_value with
  | CtxValue (VStr s) =>
      any_in (blocked_patterns rule)
        (fun pattern => pystr.contains pattern (pystr.lower s))
  | _ => false
  end.

(** [check(operation, tracker, **kwargs)]: the answer and the policy
    afterwards.  The tracker is not read. *)
Definition check (self : MCPSecurityPolicy) (operation : string)
    (tracker : CapabilityTracker) (kwargs : gmap string ctx_value)
  : bool * MCPSecurityPolicy :=
  match tool_rules self !! operation with
  | None => (true, self)
  | Some rule =>
      let current_count := default 0 (call_counts self !! operation) in
      if (max_calls_per_session rule <=? Z.of_nat current_count)%Z
      then (false, self)
      else if existsb (fun kv => blocked_argument rule kv.2)
                       (map_to_list kwargs)
      then (false, self)
      else
        (true,
         mkMCPSecurityPolicy (tool_rules self)
           (<[operation := S current_count]> (call_counts self))
           (session_data_exports self))
  end.

Definition reset_session (self : MCPSecurityPolicy) : MCPSecurityPolicy :=
  mkMCPSecurityPolicy (tool_rules self) ∅ [].

End MCPSecurityPolicy.

(** ** Sequences of calls, for the statements about sessions *)

(** A sequence of [register_tool] calls: the answers and the detector
    afterwards. *)
Fixpoint register_all (d : ToolShadowingDetector)
    (regs : list (string * string)) : list bool * ToolShadowingDetector :=
  match regs with
  | [] => ([], d)
  | (name, src) :: rest =>
      let '(ok, d1) := register_tool d name src in
      let '(oks, d2) := register_all d1 rest in
      (ok :: oks, d2)
  end.

(** The names of the registrations that were refused, in order. *)
Fixpoint refused_names (regs : list (string * string)) (answers : list bool)
  : list string :=
  match regs, answers with
  | (name, _) :: rest, ok :: oks =>
      if ok then refused_names rest oks else name :: refused_names rest oks
  | _, _ => []
  end.

(** A sequence of [MCPSecurityPolicy.check] calls: the answers and the
    policy afterwards. *)
Fixpoint check_all (p : MCPSecurityPolicy) (tracker : CapabilityTracker)
    (calls : list (string * gmap string ctx_value))
  : list bool * MCPSecurityPolicy :=
  match calls with
  | [] => ([], p)
  | (op, kwargs) :: rest =>
      let '(ok, p1) := MCPSecurityPolicy.check p op tracker kwargs in
      let '(oks, p2) := check_all p1 tracker rest in
      (ok :: oks, p2)
  end.

(** How many of the calls of operation [op] were allowed. *)
Fixpoint allowed_count (op : string)
    (calls : list (string * gmap string ctx_value)) (answers : list bool)
  : nat :=
  match calls, answers with
  | (op', _) :: rest, ok :: oks =>
      (if bool_decide (op' = op) && ok then 1 else 0)
      + allowed_count op rest oks
  | _, _ => 0
  end.

(** A detector on which [send_email] is registered from [server-A]. *)
Definition detector_A : ToolShadowingDetector :=
  (register_tool ToolShadowingDetector_new "send_email" "server-A").2.

(** Seven harmless [send_email] calls. *)
Definition seven_emails : list (string * gmap string ctx_value) :=
  replicate 7 ("send_email", {[ "body" := CtxValue (VStr "hello") ]}).

(** Some string argument holds, in lower case, a blocked pattern of the
    rule. *)
Definition holds_blocked_pattern (rule : MCPToolRule)
    (kwargs : gmap string ctx_value) : Prop :=
  exists (arg_name arg_value pattern : string),
    kwargs !! arg_name = Some (CtxValue (VStr arg_value))
    /\ pattern ∈ blocked_patterns rule
    /\ substring_of pattern (pystr.lower arg_value).

(** The rule of [send_email] in the default policy. *)
Definition default_email_rule : MCPToolRule :=
  mkMCPToolRule "send_email" {[ "send" ]}
    {[ "attacker"; "evil"; "malicious"; "hacker";
       "exfiltrate"; "steal"; "dump"; "leak" ]}
    true 5.

(** * Properties *)

(** Evaluation of a closed goal, and the splitting of a conjunction. *)
Ltac run := vm_compute; reflexivity.
Ltac splits := repeat match goal with |- _ /\ _ => split end.

(** ** The label algebra *)

Lemma has_capability_any (S : CapabilitySet) (t : CapabilityType) :
  has_capability S t None = true <->
  exists c, c ∈ capabilities S /\ capability_type c = t.
Proof.
  unfold has_capability. rewrite existsb_exists. split.
  - intros (c & Hin & Hc). exists c.
    apply andb_true_iff in Hc as [Hc _]. apply bool_decide_eq_true in Hc.
    split; [|exact Hc]. apply elem_of_elements, list_elem_of_In, Hin.
  - intros (c & Hin & Hc). exists c. split.
    + apply list_elem_of_In, elem_of_elements, Hin.
    + rewrite andb_true_r. apply bool_decide_eq_true, Hc.
Qed.

Lemma existsb_elem_of {A} (f : A -> bool) (l : list A) :
  existsb f l = true <-> exists x, x ∈ l /\ f x = true.
Proof.
  rewrite existsb_exists. split; intros (x & Hin & Hx); exists x;
    (split; [apply list_elem_of_In, Hin | exact Hx]).
Qed.

Lemma fold_union_elem (sources : list CapabilitySet) (acc : CapabilitySet)
    (c : Capability) :
  c ∈ capabilities
        (fold_left
           (fun d src => mkCapabilitySet (capabilities d ∪ capabilities src))
           sources acc) <->
  c ∈ capabilities acc \/ exists S, S ∈ sources /\ c ∈ capabilities S.
Proof.
  revert acc. induction sources as [|S0 rest IH]; intros acc; simpl.
  - split; [auto|]. intros [H|(S & HS & _)]; [exact H|]. inversion HS.
  - rewrite IH. simpl. rewrite elem_of_union. split.
    + intros [[H|H]|(S & HS & Hc)].
      * left; exact H.
      * right. exists S0. split; [left|exact H].
      * right. exists S. split; [right; exact HS|exact Hc].
    + intros [H|(S & HS & Hc)].
      * left; left; exact H.
      * apply elem_of_cons in HS as [->|HS].
        -- left; right; exact Hc.
        -- right. exists S. split; assumption.
Qed.

(** What [derive_from] returns, element by element: everything the sources
    carry, and the capability [UNTRUSTED/derived] when a source is
    untrusted. *)
Lemma derive_from_elem (sources : list CapabilitySet) (c : Capability) :
  c ∈ capabilities (derive_from sources) <->
  (exists S, S ∈ sources /\ c ∈ capabilities S)
  \/ (c = Capability_new UNTRUSTED "derived"
      /\ exists S, S ∈ sources /\ is_untrusted S = true).
Proof.
  unfold derive_from.
  destruct (existsb is_untrusted sources) eqn:Hany.
  - apply existsb_elem_of in Hany. unfold add. simpl.
    rewrite elem_of_union, fold_union_elem, elem_of_singleton. simpl.
    split.
    + intros [[H|H]|H]; [set_solver|left; exact H|right; split; [exact H|exact Hany]].
    + intros [H|[H _]]; [left; right; exact H|right; exact H].
  - rewrite fold_union_elem. simpl. split.
    + intros [H|H]; [set_solver|left; exact H].
    + intros [H|[_ H]]; [right; exact H|].
      apply existsb_elem_of in H. congruence.
Qed.

Lemma derive_from_untrusted (sources : list CapabilitySet) :
  (exists S, S ∈ sources /\ is_untrusted S = true) ->
  is_untrusted (derive_from sources) = true.
Proof.
  intros (S & HS & Hu). apply has_capability_any.
  apply has_capability_any in Hu as (c & Hc & Ht).
  exists c. split; [|exact Ht]. apply derive_from_elem. left.
  exists S. split; assumption.
Qed.

Lemma collect_source_caps_elem (tracker : CapabilityTracker)
    (source_vars : list string) (S : CapabilitySet) :
  S ∈ collect_source_caps tracker source_vars <->
  exists y, y ∈ source_vars /\ get_capabilities tracker y = Some S.
Proof. unfold collect_source_caps. apply list_elem_of_omap. Qed.

Lemma get_assign_eq (tracker : CapabilityTracker) (x : string)
    (S : CapabilitySet) :
  get_capabilities (assign_capabilities tracker x S) x = Some S.
Proof. unfold get_capabilities, assign_capabilities. simpl. apply lookup_insert_eq. Qed.

Lemma derive_capabilities_untrusted (tracker : CapabilityTracker)
    (x y : string) (source_vars : list string) (S : CapabilitySet) :
  y ∈ source_vars ->
  get_capabilities tracker y = Some S ->
  is_untrusted S = true ->
  exists S',
    get_capabilities (derive_capabilities tracker x source_vars) x = Some S'
    /\ is_untrusted S' = true.
Proof.
  intros Hy HS Hu.
  assert (Hin : S ∈ collect_source_caps tracker source_vars).
  { apply collect_source_caps_elem. exists y. split; assumption. }
  unfold derive_capabilities.
  destruct (collect_source_caps tracker source_vars) as [|S0 rest] eqn:Hc.
  - inversion Hin.
  - eexists. split; [apply get_assign_eq|].
    apply derive_from_untrusted. exists S. split; assumption.
Qed.

(** C4, as the claim states it, fails: a TRUSTED capability of a source is
    inherited by the derived set. *)
Lemma derive_from_propagates_trusted :
  is_trusted trusted_user = true
  /\ Capability_new TRUSTED "user" ∈ capabilities (derive_from [trusted_user])
  /\ is_trusted (derive_from [trusted_user]) = true.
Proof.
  split; [vm_compute; reflexivity|]. split.
  - apply derive_from_elem. left. exists trusted_user. split.
    + apply elem_of_cons. left. reflexivity.
    + unfold trusted_user, add. simpl. set_solver.
  - vm_compute. reflexivity.
Qed.

(** C4, amended. [derive_from] inherits every capability of its sources,
    TRUSTED included: a TRUSTED capability is in the derived set exactly
    when some source carries it, so the result is trusted exactly when some
    source is.  Trust is propagated from predecessors, never invented. *)
Theorem derive_from_trusted_iff (sources : list CapabilitySet) :
  (forall c : Capability,
      capability_type c = TRUSTED ->
      (c ∈ capabilities (derive_from sources) <->
       exists S, S ∈ sources /\ c ∈ capabilities S))
  /\ (is_trusted (derive_from sources) = true <->
      exists S, S ∈ sources /\ is_trusted S = true).
Proof.
  assert (Hel : forall c, capability_type c = TRUSTED ->
            (c ∈ capabilities (derive_from sources) <->
             exists S, S ∈ sources /\ c ∈ capabilities S)).
  { intros c Ht. rewrite derive_from_elem. split; [|auto].
    intros [H|[-> _]]; [exact H|]. discriminate Ht. }
  split; [exact Hel|].
  unfold is_trusted. rewrite has_capability_any. split.
  - intros (c & Hc & Ht). apply (Hel c Ht) in Hc as (S & HS & Hc).
    exists S. split; [exact HS|]. apply has_capability_any. eauto.
  - intros (S & HS & Hu). apply has_capability_any in Hu as (c & Hc & Ht).
    exists c. split; [|exact Ht]. apply (Hel c Ht). eauto.
Qed.

Lemma derive_from_trusted_iff_witness :
  Capability_new TRUSTED "user"
    ∈ capabilities (derive_from [untrusted_external; trusted_user]).
Proof.
  apply (proj1 (derive_from_trusted_iff [untrusted_external; trusted_user])).
  - reflexivity.
  - exists trusted_user. split.
    + apply elem_of_cons. right. apply elem_of_cons. left. reflexivity.
    + unfold trusted_user, add. simpl. set_solver.
Defined.

(** ** The tracker *)

Lemma derive_capabilities_unbound (tracker : CapabilityTracker)
    (target : string) (source_vars : list string) :
  (forall v, v ∈ source_vars -> get_capabilities tracker v = None) ->
  derive_capabilities tracker target source_vars = tracker.
Proof.
  intros Hnone.
  assert (Hc : collect_source_caps tracker source_vars = []).
  { destruct (collect_source_caps tracker source_vars) as [|S rest] eqn:E;
      [reflexivity|].
    assert (Hin : S ∈ collect_source_caps tracker source_vars)
      by (rewrite E; left).
    apply collect_source_caps_elem in Hin as (y & Hy & HS).
    rewrite (Hnone y Hy) in HS. discriminate HS. }
  unfold derive_capabilities. rewrite Hc. reflexivity.
Qed.

(** C9, as the claim states it, fails: no source is bound, the target was
    bound before the call, and it is still bound after it. *)
Lemma derive_unbound_sources_keeps_target :
  get_capabilities tracker_x_trusted "y" = None
  /\ get_capabilities (derive_capabilities tracker_x_trusted "x" ["y"]) "x"
     = Some trusted_user.
Proof.
  assert (Hy : get_capabilities tracker_x_trusted "y" = None)
    by (vm_compute; reflexivity).
  split; [exact Hy|].
  rewrite derive_capabilities_unbound; [apply get_assign_eq|].
  intros v Hv. apply list_elem_of_singleton in Hv as ->. exact Hy.
Qed.

(** C9, amended. When no source variable of [derive_capabilities] is bound,
    the tracker is left as it was: the target keeps the binding it had,
    absent if it was unbound, its old labels if it was bound. *)
Theorem derive_without_bound_source (tracker : CapabilityTracker)
    (target : string) (source_vars : list string) :
  (forall v, v ∈ source_vars -> get_capabilities tracker v = None) ->
  derive_capabilities tracker target source_vars = tracker
  /\ get_capabilities (derive_capabilities tracker target source_vars) target
     = get_capabilities tracker target.
Proof.
  intros Hnone. rewrite (derive_capabilities_unbound _ _ _ Hnone).
  split; reflexivity.
Qed.

Lemma derive_without_bound_source_witness :
  derive_capabilities tracker_x_trusted "x" ["y"; "z"] = tracker_x_trusted
  /\ get_capabilities (derive_capabilities tracker_x_trusted "x" ["y"; "z"]) "x"
     = get_capabilities tracker_x_trusted "x".
Proof.
  apply (derive_without_bound_source tracker_x_trusted "x" ["y"; "z"]).
  intros v Hv.
  apply elem_of_cons in Hv as [->|Hv]; [vm_compute; reflexivity|].
  apply elem_of_cons in Hv as [->|Hv]; [vm_compute; reflexivity|].
  inversion Hv.
Defined.

(** ** The output validator of the quarantined model *)

Lemma contains_char_occurs (c : ascii) (s : string) :
  pystr.contains_char c s = true <-> occurs c s.
Proof.
  induction s as [|d t IH]; simpl.
  - split; [discriminate|]. intros ([|a pre] & post & H); discriminate H.
  - rewrite orb_true_iff, IH. split.
    + intros [H|(pre & post & ->)].
      * apply Ascii.eqb_eq in H as ->. exists EmptyString, t. reflexivity.
      * exists (String d pre), post. reflexivity.
    + intros ([|a pre] & post & H); simpl in H; injection H as -> ->.
      * left. apply Ascii.eqb_refl.
      * right. exists pre, post. reflexivity.
Qed.

Lemma contains_single (c : ascii) (s : string) :
  pystr.contains (String c EmptyString) s = pystr.contains_char c s.
Proof.
  induction s as [|d t IH]; simpl; [reflexivity|].
  rewrite IH. f_equal.
  destruct (ascii_dec c d) as [->|Hne].
  - rewrite Ascii.eqb_refl. destruct t; reflexivity.
  - symmetry. apply Ascii.eqb_neq, Hne.
Qed.

Lemma existsb_invalid_chars (s : string) :
  existsb (fun char => pystr.contains_char char s) invalid_chars = true <->
  exists c, c ∈ invalid_chars /\ occurs c s.
Proof.
  rewrite existsb_elem_of. split; intros (c & Hc & H); exists c;
    (split; [exact Hc|apply contains_char_occurs, H]).
Qed.

(** C7, as the claim states it, fails: the text [abc] is no signed decimal
    integer, and the validator returns it for the schema [integer]. *)
Lemma validate_output_integer_unchecked :
  spec_integer_ok "abc" = false
  /\ _validate_output "abc" (VStr "integer") = inr "abc".
Proof. split; vm_compute; reflexivity. Qed.

(** C7, amended. The validator strips the output and then enforces three
    schemas only.  It raises a [ValueError] exactly when the schema is
    [email] and the stripped output lacks an [@] or a [.] (no length is
    checked), when the schema is [string] and the stripped output is longer
    than 1000 characters, or when the schema is [filename] and the stripped
    output holds one of the nine characters of [invalid_chars]; in every
    other case, the schema [integer] included, it returns the stripped
    output. *)
Theorem validate_output_rules (output schema : string) :
  (_validate_output output (VStr schema) = inr (pystr.strip output)
   /\ ~ refused schema (pystr.strip output))
  \/ ((exists msg, _validate_output output (VStr schema) = inl (ValueError msg))
      /\ refused schema (pystr.strip output)).
Proof.
  unfold _validate_output, refused.
  set (s := pystr.strip output).
  set (bad := existsb (fun char => pystr.contains_char char s) invalid_chars).
  assert (Hbad : bad = true <-> exists c, c ∈ invalid_chars /\ occurs c s)
    by apply existsb_invalid_chars.
  clearbody bad. unfold py_eq; simpl.
  destruct (String.eqb_spec schema "email") as [->|Hemail].
  { rewrite !(contains_single _ s).
    destruct (pystr.contains_char "@" s) eqn:Hat;
      destruct (pystr.contains_char "." s) eqn:Hdot; simpl.
    - left. split; [reflexivity|].
      intros [[_ H]|[[H _]|[H _]]]; [|discriminate H|discriminate H].
      apply H. split; apply contains_char_occurs; assumption.
    - right. split; [eexists; reflexivity|]. left. split; [reflexivity|].
      intros [_ H]. apply contains_char_occurs in H. congruence.
    - right. split; [eexists; reflexivity|]. left. split; [reflexivity|].
      intros [H _]. apply contains_char_occurs in H. congruence.
    - right. split; [eexists; reflexivity|]. left. split; [reflexivity|].
      intros [H _]. apply contains_char_occurs in H. congruence. }
  destruct (String.eqb_spec schema "string") as [->|Hstring].
  { destruct (Nat.ltb_spec 1000 (String.length s)) as [Hlong|Hshort].
    - right. split; [eexists; reflexivity|]. right; left. split; [reflexivity|exact Hlong].
    - left. split; [reflexivity|].
      intros [[H _]|[[_ H]|[H _]]]; [discriminate H|lia|discriminate H]. }
  destruct (String.eqb_spec schema "filename") as [->|Hfilename].
  { destruct bad.
    - right. split; [eexists; reflexivity|]. right; right.
      split; [reflexivity|]. apply Hbad. reflexivity.
    - left. split; [reflexivity|].
      intros [[H _]|[[H _]|[_ H]]]; [discriminate H|discriminate H|].
      apply Hbad in H. discriminate H. }
  left. split; [reflexivity|].
  intros [[H _]|[[H _]|[H _]]]; contradiction.
Qed.

(** ** The tool-shadowing detector *)

(** C8. On a detector that has not registered [tool_name] yet, two
    registrations of that name from distinct sources go as follows: the
    first returns [True], the second returns [False] and leaves the first
    source in place, and the name is appended, once, to the list that
    [get_tool_conflicts] returns. *)
Theorem shadowing_detected (d : ToolShadowingDetector)
    (tool_name s1 s2 : string) :
  tool_name ∉ registered_tools d ->
  s1 <> s2 ->
  (register_tool d tool_name s1).1 = true
  /\ (register_tool (register_tool d tool_name s1).2 tool_name s2).1 = false
  /\ tool_sources (register_tool (register_tool d tool_name s1).2 tool_name s2).2
       !! tool_name = Some s1
  /\ get_tool_conflicts
       (register_tool (register_tool d tool_name s1).2 tool_name s2).2
     = (get_tool_conflicts d ++ [tool_name])%list.
Proof.
  intros Hfresh Hne.
  assert (H1 : register_tool d tool_name s1
               = (true,
                  mkToolShadowingDetector (registered_tools d ∪ {[ tool_name ]})
                    (<[tool_name := s1]> (tool_sources d))
                    (suspicious_duplicates d))).
  { unfold register_tool. rewrite (bool_decide_eq_false_2 _ Hfresh).
    reflexivity. }
  rewrite H1. simpl. unfold register_tool. simpl.
  rewrite bool_decide_eq_true_2 by set_solver.
  rewrite lookup_insert_eq.
  rewrite bool_decide_eq_false_2 by congruence.
  simpl. rewrite lookup_insert_eq. repeat split; reflexivity.
Qed.

Lemma shadowing_detected_witness :
  (register_tool ToolShadowingDetector_new "send_email" "server-A").1 = true
  /\ (register_tool
        (register_tool ToolShadowingDetector_new "send_email" "server-A").2
        "send_email" "server-B").1 = false
  /\ tool_sources
       (register_tool
          (register_tool ToolShadowingDetector_new "send_email" "server-A").2
          "send_email" "server-B").2 !! "send_email" = Some "server-A"
  /\ get_tool_conflicts
       (register_tool
          (register_tool ToolShadowingDetector_new "send_email" "server-A").2
          "send_email" "server-B").2
     = (get_tool_conflicts ToolShadowingDetector_new ++ ["send_email"])%list.
Proof.
  apply (shadowing_detected ToolShadowingDetector_new
           "send_email" "server-A" "server-B").
  - vm_compute. intros H. inversion H.
  - discriminate.
Defined.

(** ** The validator *)

(** Induction over expressions, with the hypothesis for every child. *)
Section expr_induction.
Variable P : ast.expr -> Prop.
Hypothesis HBoolOp : forall op values,
    Forall P values -> P (ast.BoolOp op values).
Hypothesis HBinOp : forall l op r, P l -> P r -> P (ast.BinOp l op r).
Hypothesis HUnaryOp : forall op e, P e -> P (ast.UnaryOp op e).
Hypothesis HDict : forall keys values,
    Forall (from_option P True) keys -> Forall P values ->
    P (ast.Dict keys values).
Hypothesis HList : forall elts ctx, Forall P elts -> P (ast.List elts ctx).
Hypothesis HTuple : forall elts ctx, Forall P elts -> P (ast.Tuple elts ctx).
Hypothesis HCompare : forall l ops cs,
    P l -> Forall P cs -> P (ast.Compare l ops cs).
Hypothesis HCall : forall f args kws,
    P f -> Forall P args -> Forall (fun kv => P kv.2) kws ->
    P (ast.Call f args kws).
Hypothesis HConstant : forall c, P (ast.Constant c).
Hypothesis HAttribute : forall v a ctx, P v -> P (ast.Attribute v a ctx).
Hypothesis HSubscript : forall v s ctx,
    P v -> P s -> P (ast.Subscript v s ctx).
Hypothesis HName : forall id ctx, P (ast.Name id ctx).
Hypothesis HSlice : forall l u s,
    from_option P True l -> from_option P True u -> from_option P True s ->
    P (ast.Slice l u s).
Hypothesis HOther : forall c children,
    Forall P children -> P (ast.OtherExpr c children).

Lemma expr_ind' : forall e, P e.
Proof.
  fix IH 1. intros e.
  assert (Hopt : forall o : option ast.expr, from_option P True o).
  { intros [x|]; simpl; [apply IH|exact I]. }
  destruct e as [op values|l op r|op e|keys values|elts ctx|elts ctx
                |l ops cs|f args kws|c|v a ctx|v s ctx|id ctx|l u s
                |c children].
  - apply HBoolOp. revert values. fix IHl 1.
    intros [|x t]; constructor; [apply IH|apply IHl].
  - apply HBinOp; apply IH.
  - apply HUnaryOp; apply IH.
  - apply HDict.
    + revert keys. fix IHl 1.
      intros [|[x|] t]; constructor; simpl;
        [apply IH|apply IHl|exact I|apply IHl].
    + revert values. fix IHl 1.
      intros [|x t]; constructor; [apply IH|apply IHl].
  - apply HList. revert elts. fix IHl 1.
    intros [|x t]; constructor; [apply IH|apply IHl].
  - apply HTuple. revert elts. fix IHl 1.
    intros [|x t]; constructor; [apply IH|apply IHl].
  - apply HCompare; [apply IH|]. revert cs. fix IHl 1.
    intros [|x t]; constructor; [apply IH|apply IHl].
  - apply HCall; [apply IH| |].
    + revert args. fix IHl 1.
      intros [|x t]; constructor; [apply IH|apply IHl].
    + revert kws. fix IHl 1.
      intros [|[k x] t]; constructor; simpl; [apply IH|apply IHl].
  - apply HConstant.
  - apply HAttribute; apply IH.
  - apply HSubscript; apply IH.
  - apply HName.
  - apply HSlice; apply Hopt.
  - apply HOther. revert children. fix IHl 1.
    intros [|x t]; constructor; [apply IH|apply IHl].
Qed.
End expr_induction.

(** Induction over statements, with the hypothesis for every statement of
    a body. *)
Section stmt_induction.
Variable P : ast.stmt -> Prop.
Hypothesis HFunctionDef : forall name args body decorators returns,
    Forall P body -> P (ast.FunctionDef name args body decorators returns).
Hypothesis HReturn : forall value, P (ast.Return value).
Hypothesis HAssign : forall targets value, P (ast.Assign targets value).
Hypothesis HIf : forall test body orelse,
    Forall P body -> Forall P orelse -> P (ast.If test body orelse).
Hypothesis HExpr : forall value, P (ast.Expr value).
Hypothesis HOtherStmt : forall c exprs body,
    Forall P body -> P (ast.OtherStmt c exprs body).

Lemma stmt_ind' : forall s, P s.
Proof.
  fix IH 1. intros s.
  destruct s as [name args body decorators returns|value|targets value
                |test body orelse|value|c exprs body].
  - apply HFunctionDef. revert body. fix IHl 1.
    intros [|x t]; constructor; [apply IH|apply IHl].
  - apply HReturn.
  - apply HAssign.
  - apply HIf.
    + revert body. fix IHl 1.
      intros [|x t]; constructor; [apply IH|apply IHl].
    + revert orelse. fix IHl 1.
      intros [|x t]; constructor; [apply IH|apply IHl].
  - apply HExpr.
  - apply HOtherStmt. revert body. fix IHl 1.
    intros [|x t]; constructor; [apply IH|apply IHl].
Qed.
End stmt_induction.

#[local] Opaque visit_head.

Lemma scan_app (l1 l2 : list string) :
  scan (l1 ++ l2) = (scan l1 >>> scan l2).
Proof.
  induction l1 as [|c t IH]; simpl; [reflexivity|].
  destruct (visit_head c); [reflexivity|exact IH].
Qed.

Lemma scan_inr_unit (l : list string) (u : ()) :
  scan l = inr u -> scan l = inr ().
Proof. destruct u. auto. Qed.

(** Rewriting under the sequencing of two validation steps. *)
Lemma seq_congr (a a' b b' : exn + ()) :
  a = a' -> b = b' -> (a >>> b) = (a' >>> b').
Proof. intros -> ->. reflexivity. Qed.

Lemma visit_exprs_scan (l : list ast.expr) :
  Forall (fun e => visit_expr e = scan (classes_expr e)) l ->
  visit_exprs l = scan (classes_exprs l).
Proof.
  induction 1 as [|x t Hx _ IH]; simpl; [reflexivity|].
  rewrite scan_app. apply seq_congr; assumption.
Qed.

Lemma visit_opt_exprs_scan (l : list (option ast.expr)) :
  Forall (from_option (fun e => visit_expr e = scan (classes_expr e)) True) l ->
  visit_opt_exprs l = scan (classes_opt_exprs l).
Proof.
  induction 1 as [|[x|] t Hx _ IH]; simpl; [reflexivity| |exact IH].
  rewrite scan_app. apply seq_congr; assumption.
Qed.

Lemma visit_keywords_scan (l : list (option string * ast.expr)) :
  Forall (fun kv => visit_expr kv.2 = scan (classes_expr kv.2)) l ->
  visit_keywords l = scan (classes_keywords l).
Proof.
  induction 1 as [|[k x] t Hx _ IH]; simpl; [reflexivity|].
  apply seq_congr; [reflexivity|].
  rewrite scan_app. apply seq_congr; assumption.
Qed.

Lemma visit_cmpops_scan (l : list ast.cmpop) :
  visit_cmpops l = scan (map ast.cmpop_name l).
Proof.
  induction l as [|o t IH]; simpl; [reflexivity|].
  apply seq_congr; [reflexivity|exact IH].
Qed.

Lemma scan_singleton (c : string) : scan [c] = visit_head c.
Proof. simpl. destruct (visit_head c) as [e|[]]; reflexivity. Qed.

(** The validator on an expression is the scan of its class names in
    traversal order: it raises at the first class that [visit] refuses. *)
Lemma visit_expr_scan (e : ast.expr) : visit_expr e = scan (classes_expr e).
Proof.
  induction e as [op values H|l op r Hl Hr|op e He|keys values Hk Hv
                 |elts ctx H|elts ctx H|l ops cs Hl Hc|f args kws Hf Ha Hk
                 |c|v a ctx Hv|v s ctx Hv Hs|id ctx|l u s Hl Hu Hs
                 |c children H] using expr_ind'.
  - change (visit_head "BoolOp" >>> visit_head (ast.boolop_name op) >>>
            visit_exprs values
            = scan ("BoolOp" :: ast.boolop_name op :: classes_exprs values)).
    simpl. repeat (apply seq_congr; [reflexivity|]).
    apply visit_exprs_scan, H.
  - change (visit_head "BinOp" >>> visit_expr l >>>
            visit_head (ast.operator_name op) >>> visit_expr r
            = scan ("BinOp" :: classes_expr l
                    ++ ast.operator_name op :: classes_expr r)).
    simpl. apply seq_congr; [reflexivity|]. rewrite scan_app. simpl.
    apply seq_congr; [exact Hl|]. apply seq_congr; [reflexivity|exact Hr].
  - change (visit_head "UnaryOp" >>> visit_head (ast.unaryop_name op) >>>
            visit_expr e
            = scan ("UnaryOp" :: ast.unaryop_name op :: classes_expr e)).
    simpl. repeat (apply seq_congr; [reflexivity|]). exact He.
  - change (visit_head "Dict" >>> visit_opt_exprs keys >>> visit_exprs values
            = scan ("Dict" :: classes_opt_exprs keys ++ classes_exprs values)).
    simpl. apply seq_congr; [reflexivity|]. rewrite scan_app.
    apply seq_congr; [apply visit_opt_exprs_scan, Hk|apply visit_exprs_scan, Hv].
  - change (visit_head "List" >>> visit_exprs elts >>>
            visit_head (ast.expr_context_name ctx)
            = scan ("List" :: classes_exprs elts ++ [ast.expr_context_name ctx])).
    simpl. apply seq_congr; [reflexivity|]. rewrite scan_app, scan_singleton.
    apply seq_congr; [apply visit_exprs_scan, H|reflexivity].
  - change (visit_head "Tuple" >>> visit_exprs elts >>>
            visit_head (ast.expr_context_name ctx)
            = scan ("Tuple" :: classes_exprs elts ++ [ast.expr_context_name ctx])).
    simpl. apply seq_congr; [reflexivity|]. rewrite scan_app, scan_singleton.
    apply seq_congr; [apply visit_exprs_scan, H|reflexivity].
  - change (visit_head "Compare" >>> visit_expr l >>> visit_cmpops ops >>>
            visit_exprs cs
            = scan ("Compare" :: classes_expr l ++ map ast.cmpop_name ops
                    ++ classes_exprs cs)).
    simpl. apply seq_congr; [reflexivity|]. rewrite !scan_app.
    apply seq_congr; [exact Hl|].
    apply seq_congr; [apply visit_cmpops_scan|apply visit_exprs_scan, Hc].
  - change (visit_head "Call" >>> visit_expr f >>> visit_exprs args >>>
            visit_keywords kws
            = scan ("Call" :: classes_expr f ++ classes_exprs args
                    ++ classes_keywords kws)).
    simpl. apply seq_congr; [reflexivity|]. rewrite !scan_app.
    apply seq_congr; [exact Hf|].
    apply seq_congr; [apply visit_exprs_scan, Ha|apply visit_keywords_scan, Hk].
  - simpl. destruct (visit_head "Constant") as [e|[]]; reflexivity.
  - change (visit_head "Attribute" >>> visit_expr v >>>
            visit_head (ast.expr_context_name ctx)
            = scan ("Attribute" :: classes_expr v
                    ++ [ast.expr_context_name ctx])).
    simpl. apply seq_congr; [reflexivity|]. rewrite scan_app, scan_singleton.
    apply seq_congr; [exact Hv|reflexivity].
  - change (visit_head "Subscript" >>> visit_expr v >>> visit_expr s >>>
            visit_head (ast.expr_context_name ctx)
            = scan ("Subscript" :: classes_expr v ++ classes_expr s
                    ++ [ast.expr_context_name ctx])).
    simpl. apply seq_congr; [reflexivity|]. rewrite !scan_app, scan_singleton.
    apply seq_congr; [exact Hv|]. apply seq_congr; [exact Hs|reflexivity].
  - simpl. apply seq_congr; [reflexivity|].
    destruct (visit_head (ast.expr_context_name ctx)) as [e|[]]; reflexivity.
  - change (visit_head "Slice" >>> visit_opt visit_expr l >>>
            visit_opt visit_expr u >>> visit_opt visit_expr s
            = scan ("Slice"
                    :: match l with Some x => classes_expr x | None => [] end
                    ++ match u with Some x => classes_expr x | None => [] end
                    ++ match s with Some x => classes_expr x | None => [] end)).
    simpl. apply seq_congr; [reflexivity|]. rewrite !scan_app.
    destruct l, u, s; simpl in *;
      repeat (apply seq_congr; [first [assumption|reflexivity]|]);
      first [assumption|reflexivity].
  - change (visit_head (ast.other_expr_name c) >>> visit_exprs children
            = scan (ast.other_expr_name c :: classes_exprs children)).
    simpl. apply seq_congr; [reflexivity|]. apply visit_exprs_scan, H.
Qed.

Lemma visit_exprs_scan_all (l : list ast.expr) :
  visit_exprs l = scan (classes_exprs l).
Proof.
  apply visit_exprs_scan, Forall_forall. intros e _. apply visit_expr_scan.
Qed.

Lemma visit_arguments_scan (a : ast.arguments) :
  visit_arguments a = scan (classes_arguments a).
Proof.
  destruct a as [names defaults]. unfold visit_arguments, classes_arguments.
  simpl. apply seq_congr; [reflexivity|]. rewrite scan_app.
  apply seq_congr; [|apply visit_exprs_scan_all].
  induction names as [|n t IH]; simpl; [reflexivity|].
  apply seq_congr; [reflexivity|exact IH].
Qed.

Lemma visit_stmts_scan (l : list ast.stmt) :
  Forall (fun s => visit_stmt s = scan (classes_stmt s)) l ->
  visit_stmts l = scan (classes_stmts l).
Proof.
  induction 1 as [|x t Hx _ IH]; simpl; [reflexivity|].
  rewrite scan_app. apply seq_congr; assumption.
Qed.

Lemma visit_stmt_scan (s : ast.stmt) : visit_stmt s = scan (classes_stmt s).
Proof.
  induction s as [name args body decorators returns Hb|value|targets value
                 |test body orelse Hb Ho|value|c exprs body Hb]
    using stmt_ind'.
  - change (visit_head "FunctionDef" >>> visit_arguments args >>>
            visit_stmts body >>> visit_exprs decorators >>>
            visit_opt visit_expr returns
            = scan ("FunctionDef" :: classes_arguments args
                    ++ classes_stmts body ++ classes_exprs decorators
                    ++ match returns with
                       | Some r => classes_expr r
                       | None => []
                       end)).
    simpl. apply seq_congr; [reflexivity|]. rewrite !scan_app.
    apply seq_congr; [apply visit_arguments_scan|].
    apply seq_congr; [apply visit_stmts_scan, Hb|].
    apply seq_congr; [apply visit_exprs_scan_all|].
    destruct returns; simpl; [apply visit_expr_scan|reflexivity].
  - simpl. apply seq_congr; [reflexivity|].
    destruct value; simpl; [apply visit_expr_scan|reflexivity].
  - change (visit_head "Assign" >>> visit_exprs targets >>> visit_expr value
            = scan ("Assign" :: classes_exprs targets ++ classes_expr value)).
    simpl. apply seq_congr; [reflexivity|]. rewrite scan_app.
    apply seq_congr; [apply visit_exprs_scan_all|apply visit_expr_scan].
  - change (visit_head "If" >>> visit_expr test >>> visit_stmts body >>>
            visit_stmts orelse
            = scan ("If" :: classes_expr test ++ classes_stmts body
                    ++ classes_stmts orelse)).
    simpl. apply seq_congr; [reflexivity|]. rewrite !scan_app.
    apply seq_congr; [apply visit_expr_scan|].
    apply seq_congr; apply visit_stmts_scan; assumption.
  - simpl. apply seq_congr; [reflexivity|]. apply visit_expr_scan.
  - change (visit_head (ast.other_stmt_name c) >>> visit_exprs exprs >>>
            visit_stmts body
            = scan (ast.other_stmt_name c :: classes_exprs exprs
                    ++ classes_stmts body)).
    simpl. apply seq_congr; [reflexivity|]. rewrite scan_app.
    apply seq_congr; [apply visit_exprs_scan_all|apply visit_stmts_scan, Hb].
Qed.

(** The validator on a module is the scan of its class names. *)
Lemma visit_scan (tree : ast.mod_) : visit tree = scan (classes_mod tree).
Proof.
  destruct tree as [body]. unfold visit, classes_mod. simpl.
  apply seq_congr; [reflexivity|].
  apply visit_stmts_scan, Forall_forall. intros s _. apply visit_stmt_scan.
Qed.

#[local] Transparent visit_head.

Lemma visit_head_accepts (cls : string) :
  visit_head cls = inr () <-> ~ offending cls.
Proof.
  unfold visit_head, offending.
  destruct (bool_decide (cls ∈ FORBIDDEN_CONSTRUCTS)) eqn:Hf.
  - apply bool_decide_eq_true in Hf. split; [discriminate|]. tauto.
  - apply bool_decide_eq_false in Hf.
    destruct (bool_decide (cls ∈ ALLOWED_NODES)) eqn:Ha; simpl.
    + apply bool_decide_eq_true in Ha. tauto.
    + apply bool_decide_eq_false in Ha. split; [discriminate|]. tauto.
Qed.

Lemma visit_head_refuses (cls : string) :
  offending cls -> visit_head cls = inl (rejection cls).
Proof.
  unfold visit_head, offending, rejection. intros Hoff.
  destruct (bool_decide (cls ∈ FORBIDDEN_CONSTRUCTS)) eqn:Hf; [reflexivity|].
  apply bool_decide_eq_false in Hf.
  destruct (bool_decide (cls ∈ ALLOWED_NODES)) eqn:Ha; simpl; [|reflexivity].
  apply bool_decide_eq_true in Ha. tauto.
Qed.

Lemma offending_dec (cls : string) : offending cls \/ ~ offending cls.
Proof.
  unfold offending.
  destruct (decide (cls ∈ FORBIDDEN_CONSTRUCTS)); [tauto|].
  destruct (decide (cls ∈ ALLOWED_NODES)); tauto.
Qed.

(** A scan over a list that holds an offending class raises, with the
    message for the first offending class of the list. *)
Lemma scan_rejects (l : list string) (cls : string) :
  cls ∈ l -> offending cls ->
  exists before bad after,
    l = (before ++ bad :: after)%list
    /\ (forall c, c ∈ before -> ~ offending c)
    /\ offending bad
    /\ scan l = inl (rejection bad).
Proof.
  induction l as [|c t IH]; intros Hin Hoff; [inversion Hin|].
  destruct (offending_dec c) as [Hc|Hc].
  - exists [], c, t. split; [reflexivity|]. split; [intros ? H; inversion H|].
    split; [exact Hc|]. simpl. rewrite (visit_head_refuses c Hc). reflexivity.
  - apply elem_of_cons in Hin as [->|Hin]; [contradiction|].
    destruct (IH Hin Hoff) as (before & bad & after & -> & Hb & Hbad & Hs).
    exists (c :: before), bad, after. split; [reflexivity|]. split.
    + intros c' Hc'. apply elem_of_cons in Hc' as [->|Hc']; [exact Hc|auto].
    + split; [exact Hbad|]. simpl.
      apply visit_head_accepts in Hc. rewrite Hc. exact Hs.
Qed.

(** C5. A program that contains a node of a forbidden class (or of any
    class outside the whitelist) is rejected by [execute] on its structure
    alone: the exception is the validator's, it names a class of the
    program that the validator refuses (the first one in traversal order),
    and the interpreter is left exactly as it was, so that no registered
    function has been invoked and nothing has been evaluated. *)
Theorem forbidden_rejected_before_evaluation (tree : ast.mod_)
    (st : CaMeLInterpreter) (cls : string) :
  cls ∈ classes_mod tree ->
  offending cls ->
  exists before bad after,
    classes_mod tree = (before ++ bad :: after)%list
    /\ (forall c, c ∈ before -> ~ offending c)
    /\ offending bad
    /\ execute tree st = (inl (wrap_error (rejection bad)), st)
    /\ invoked (execute tree st).2 = invoked st.
Proof.
  intros Hin Hoff.
  destruct (scan_rejects _ _ Hin Hoff) as (before & bad & after & E & Hb & Hbad & Hs).
  exists before, bad, after. split; [exact E|]. split; [exact Hb|].
  split; [exact Hbad|].
  assert (Hex : execute tree st = (inl (wrap_error (rejection bad)), st)).
  { unfold execute. rewrite visit_scan, Hs. reflexivity. }
  split; [exact Hex|]. rewrite Hex. reflexivity.
Qed.

Lemma forbidden_rejected_before_evaluation_witness :
  exists before bad after,
    classes_mod prog_import_os = (before ++ bad :: after)%list
    /\ (forall c, c ∈ before -> ~ offending c)
    /\ offending bad
    /\ execute prog_import_os system0 = (inl (wrap_error (rejection bad)), system0)
    /\ invoked (execute prog_import_os system0).2 = invoked system0.
Proof.
  apply (forbidden_rejected_before_evaluation prog_import_os system0 "Import").
  - apply (bool_decide_unpack _). vm_compute. exact I.
  - left. apply (bool_decide_unpack _). vm_compute. exact I.
Defined.

(** The program [import os], on any interpreter: the message names
    [Import], and the interpreter is untouched. *)
Lemma import_os_rejected (st : CaMeLInterpreter) :
  execute prog_import_os st
  = (inl (CaMeLInterpreterError
            "Error executing CaMeL code: Forbidden construct: Import"), st).
Proof. reflexivity. Qed.

(** ** The interpreter *)

Lemma same_frame_refl (st : CaMeLInterpreter) : same_frame st st.
Proof. repeat split. Qed.

Lemma same_frame_trans (a b c : CaMeLInterpreter) :
  same_frame a b -> same_frame b c -> same_frame a c.
Proof.
  intros (H1 & H2 & H3) (K1 & K2 & K3).
  repeat split; congruence.
Qed.

Lemma keeps_frame_ret {A} (a : A) : keeps_frame (ret a).
Proof. intros st. apply same_frame_refl. Qed.

Lemma keeps_frame_raise {A} (e : exn) : keeps_frame (@raise A e).
Proof. intros st. apply same_frame_refl. Qed.

Lemma keeps_frame_lift {A} (r : exn + A) : keeps_frame (lift r).
Proof. intros st. apply same_frame_refl. Qed.

Lemma keeps_frame_bind {A B} (m : M A) (k : A -> M B) :
  keeps_frame m -> (forall a, keeps_frame (k a)) -> keeps_frame (bind m k).
Proof.
  intros Hm Hk st. unfold bind. specialize (Hm st).
  destruct (m st) as [[e|a] st1]; simpl in *; [exact Hm|].
  eapply same_frame_trans; [apply Hk|exact Hm].
Qed.

Lemma keeps_frame_call_function (func_name : string) (func : pyfunc)
    (args : list value) (kwargs : list (option string * value)) :
  keeps_frame (call_function func_name func args kwargs).
Proof.
  intros st. unfold call_function.
  destruct (mapM _ kwargs) as [kw|]; [|apply same_frame_refl].
  destruct (func args kw (world st)) as [r w]. repeat split.
Qed.

Lemma keeps_frame_call_checked (func_name : string)
    (arg_nodes : list ast.expr) (args : list value)
    (kwargs : list (option string * value)) :
  keeps_frame (call_checked func_name arg_nodes args kwargs).
Proof.
  intros st. unfold call_checked.
  destruct (check_operation _ _ _) as [e|[|]]; try apply same_frame_refl.
  destruct (functions st !! func_name) as [func|]; [|apply same_frame_refl].
  apply keeps_frame_call_function.
Qed.

Lemma keeps_frame_exprs (l : list ast.expr) :
  Forall (fun e => keeps_frame (_execute_expr e)) l ->
  keeps_frame (_execute_exprs l).
Proof.
  induction 1 as [|x t Hx _ IH]; simpl; [apply keeps_frame_ret|].
  apply keeps_frame_bind; [exact Hx|]. intros v.
  apply keeps_frame_bind; [exact IH|]. intros vs. apply keeps_frame_ret.
Qed.

Lemma keeps_frame_keywords (l : list (option string * ast.expr))
    (acc : list (option string * value)) :
  Forall (fun kv => keeps_frame (_execute_expr kv.2)) l ->
  keeps_frame (_execute_keywords l acc).
Proof.
  intros H. revert acc.
  induction H as [|[k x] t Hx _ IH]; intros acc; simpl;
    [apply keeps_frame_ret|].
  apply keeps_frame_bind; [exact Hx|]. intros v. apply IH.
Qed.

Lemma keeps_frame_compare_chain (cs : list ast.expr) (ops : list ast.cmpop)
    (lhs : value) :
  Forall (fun e => keeps_frame (_execute_expr e)) cs ->
  keeps_frame (compare_chain cs ops lhs).
Proof.
  intros H. revert ops lhs.
  induction H as [|c t Hc _ IH]; intros [|op ops] lhs; simpl;
    try apply keeps_frame_ret.
  apply keeps_frame_bind; [exact Hc|]. intros rhs.
  apply keeps_frame_bind; [apply keeps_frame_lift|]. intros [|];
    [apply IH|apply keeps_frame_ret].
Qed.

(** Evaluating an expression changes neither the tracker, nor the
    variables, nor the function table. *)
Lemma keeps_frame_expr (e : ast.expr) : keeps_frame (_execute_expr e).
Proof.
  induction e as [op values H|l op r Hl Hr|op e He|keys values Hk Hv
                 |elts ctx H|elts ctx H|l ops cs Hl Hc|f args kws Hf Ha Hk
                 |c|v a ctx Hv|v s ctx Hv Hs|id ctx|l u s Hl Hu Hs
                 |c children H] using expr_ind';
    try apply keeps_frame_raise.
  - change (keeps_frame
              (let* first := _execute_expr l in compare_chain cs ops first)).
    apply keeps_frame_bind; [exact Hl|]. intros first.
    apply keeps_frame_compare_chain, Hc.
  - change (keeps_frame
              (let* func_name := lift (_get_function_name f) in
               let* known :=
                 (fun st =>
                    (inr (bool_decide (is_Some (functions st !! func_name))),
                     st)) in
               if negb known
               then raise (CaMeLInterpreterError
                             ("Unknown function: " ++ func_name))
               else
                 let* args' := _execute_exprs args in
                 let* kwargs := _execute_keywords kws [] in
                 call_checked func_name args args' kwargs)).
    apply keeps_frame_bind; [apply keeps_frame_lift|]. intros func_name.
    apply keeps_frame_bind; [intros st; apply same_frame_refl|].
    intros [|]; simpl; [|apply keeps_frame_raise].
    apply keeps_frame_bind; [apply keeps_frame_exprs, Ha|]. intros args'.
    apply keeps_frame_bind; [apply keeps_frame_keywords, Hk|]. intros kwargs.
    apply keeps_frame_call_checked.
  - apply keeps_frame_ret.
  - intros st. simpl.
    destruct (variables st !! id); [apply same_frame_refl|].
    destruct (bool_decide _); apply same_frame_refl.
Qed.

Lemma track_assignment_unlabelled (x : string) (e : ast.expr)
    (tracker : CapabilityTracker) :
  no_label_source tracker e -> track_assignment x e tracker = tracker.
Proof.
  destruct e; simpl; try reflexivity.
  - intros Hnone. destruct (source_vars_of args) as [|y ys] eqn:E;
      [reflexivity|].
    apply derive_capabilities_unbound. exact Hnone.
  - intros ->. reflexivity.
Qed.

Lemma execute_assign_eq (x : string) (ctx : ast.expr_context) (e : ast.expr)
    (st : CaMeLInterpreter) :
  _execute_stmt (ast.Assign [ast.Name x ctx] e) st
  = match _execute_expr e st with
    | (inl err, st1) => (inl err, st1)
    | (inr v, st1) =>
        (inr VNone,
         with_tracker (with_variable st1 x v)
           (track_assignment x e (capability_tracker st1)))
    end.
Proof.
  simpl. unfold bind. destruct (_execute_expr e st) as [[err|v] st1];
    reflexivity.
Qed.

(** C10. Let the assigned expression be neither a bare name with labels
    nor a call with a labelled bare name among its positional arguments (a
    constant literal, for one).  Then the assignment performs no tracker
    write, whether it succeeds or raises; when the expression evaluates to
    [v], the assignment succeeds and binds [x] to [v] in the value
    environment; and the assignment of a constant always succeeds.  The
    labels recorded for [x] before are thus still reported after it. *)
Theorem assign_without_label_source (st : CaMeLInterpreter) (x : string)
    (e : ast.expr) :
  no_label_source (capability_tracker st) e ->
  capability_tracker (_execute_stmt (assign x e) st).2 = capability_tracker st
  /\ (forall v st1,
         _execute_expr e st = (inr v, st1) ->
         _execute_stmt (assign x e) st = (inr VNone, with_variable st1 x v)
         /\ variables (with_variable st1 x v) !! x = Some v)
  /\ (forall c,
         e = ast.Constant c ->
         _execute_stmt (assign x e) st
         = (inr VNone, with_variable st x (value_of_constant c))).
Proof.
  intros Hno.
  assert (Hstep : forall v st1,
             _execute_expr e st = (inr v, st1) ->
             _execute_stmt (assign x e) st = (inr VNone, with_variable st1 x v)).
  { intros v st1 Hev. unfold assign. rewrite execute_assign_eq, Hev.
    destruct (keeps_frame_expr e st) as (Ht & _ & _). rewrite Hev in Ht.
    simpl in Ht. rewrite track_assignment_unlabelled by (rewrite Ht; exact Hno).
    reflexivity. }
  split; [|split].
  - destruct (_execute_expr e st) as [[err|v] st1] eqn:Hev.
    + unfold assign. rewrite execute_assign_eq, Hev. simpl.
      destruct (keeps_frame_expr e st) as (Ht & _ & _). rewrite Hev in Ht.
      exact Ht.
    + rewrite (Hstep v st1 eq_refl). simpl.
      destruct (keeps_frame_expr e st) as (Ht & _ & _). rewrite Hev in Ht.
      exact Ht.
  - intros v st1 Hev. split; [apply Hstep, Hev|].
    simpl. apply lookup_insert_eq.
  - intros c ->. apply Hstep. reflexivity.
Qed.

Lemma assign_without_label_source_witness :
  capability_tracker (_execute_stmt (assign "x" (int 5)) interp_x_untrusted).2
  = capability_tracker interp_x_untrusted
  /\ _execute_stmt (assign "x" (int 5)) interp_x_untrusted
     = (inr VNone, with_variable interp_x_untrusted "x" (VInt 5)).
Proof.
  destruct (assign_without_label_source interp_x_untrusted "x" (int 5) I)
    as (H1 & _ & H3).
  split; [exact H1|]. apply (H3 (ast.CInt 5)). reflexivity.
Defined.

(** After [x = 5] on an interpreter where [x] was labelled UNTRUSTED, the
    value of [x] is 5 and the tracker still reports [x] as untrusted. *)
Lemma x_is_5_keeps_old_labels :
  (execute prog_x_is_5 interp_x_untrusted).1 = inr VNone
  /\ variables (execute prog_x_is_5 interp_x_untrusted).2 !! "x"
     = Some (VInt 5)
  /\ is_untrusted
       <$> get_capabilities
             (capability_tracker (execute prog_x_is_5 interp_x_untrusted).2)
             "x"
     = Some true.
Proof. splits; run. Qed.

(** C6, evaluated on the code. Each of these programs is made of
    whitelisted classes only and passes the validator; [execute] then
    aborts it with [No handler for] the class, on any interpreter, leaving
    the interpreter as it was. *)
Theorem whitelisted_without_handler (st : CaMeLInterpreter) :
  Forall
    (fun p : ast.mod_ * string =>
       visit p.1 = inr ()
       /\ execute p.1 st
          = (inl (CaMeLInterpreterError
                    ("Error executing CaMeL code: No handler for " ++ p.2)),
             st))
    unhandled_programs.
Proof. repeat constructor. Qed.

(** ** The e-mail policy as the interpreter calls it *)

(** Whatever the call, the context the interpreter passes has the keys
    [args], [kwargs] and [arg_capabilities] only, and on such a context the
    e-mail policy allows [send_email]. *)
Lemma email_policy_allows_interpreter_context (p : EmailSecurityPolicy)
    (tracker : CapabilityTracker) (args : list value)
    (kwargs : list (option string * value)) (caps : list CapabilitySet) :
  EmailSecurityPolicy.check p "send_email" tracker
    {[ "args" := CtxArgs args;
       "kwargs" := CtxKwargs kwargs;
       "arg_capabilities" := CtxCaps caps ]}
  = inr true.
Proof.
  unfold EmailSecurityPolicy.check.
  set (ctx := ({[ "args" := CtxArgs args; "kwargs" := CtxKwargs kwargs;
                  "arg_capabilities" := CtxCaps caps ]}
               : gmap string ctx_value)).
  assert (H1 : ctx !! "recipient_value" = None) by reflexivity.
  assert (H2 : ctx !! "recipient" = None) by reflexivity.
  rewrite H1, H2. simpl.
  match goal with
  | |- (if ?b then _ else _) = _ =>
      assert (H3 : b = false) by (vm_compute; reflexivity); rewrite H3
  end.
  destruct (bool_decide _); reflexivity.
Qed.

(** C3. [derive_from] never drops UNTRUSTED: when one of the sources is
    untrusted, so is the derived set.  When [derive_capabilities] is run
    for [x] with a source variable that the tracker labels UNTRUSTED, the
    tracker afterwards has an entry for [x] and that entry is untrusted.
    And when a program binds [x] to a call that has such a variable among
    its positional arguments, the tracker reports [x] as untrusted after
    that statement. *)
Theorem derive_keeps_untrusted :
  (forall sources : list CapabilitySet,
      (exists S, S ∈ sources /\ is_untrusted S = true) ->
      is_untrusted (derive_from sources) = true)
  /\ (forall (tracker : CapabilityTracker) (x y : string)
             (source_vars : list string) (S : CapabilitySet),
         y ∈ source_vars ->
         get_capabilities tracker y = Some S ->
         is_untrusted S = true ->
         exists S',
           get_capabilities (derive_capabilities tracker x source_vars) x
           = Some S'
           /\ is_untrusted S' = true)
  /\ (forall (st : CaMeLInterpreter) (x y : string) (f : ast.expr)
             (args : list ast.expr) (kws : list (option string * ast.expr))
             (S : CapabilitySet) (r : value),
         (_execute_stmt (assign x (ast.Call f args kws)) st).1 = inr r ->
         y ∈ source_vars_of args ->
         get_capabilities (capability_tracker st) y = Some S ->
         is_untrusted S = true ->
         exists S',
           get_capabilities
             (capability_tracker
                (_execute_stmt (assign x (ast.Call f args kws)) st).2) x
           = Some S'
           /\ is_untrusted S' = true).
Proof.
  split; [exact derive_from_untrusted|].
  split; [exact derive_capabilities_untrusted|].
  intros st x y f args kws S r Hrun Hy HS Hu.
  unfold assign in *. rewrite execute_assign_eq in *.
  destruct (keeps_frame_expr (ast.Call f args kws) st) as (Ht & _ & _).
  destruct (_execute_expr (ast.Call f args kws) st) as [[err|v] st1];
    [discriminate Hrun|].
  simpl in Ht. simpl. rewrite Ht.
  destruct (source_vars_of args) as [|z zs] eqn:E; [inversion Hy|].
  apply (derive_capabilities_untrusted _ x y (z :: zs) S); assumption.
Qed.

Lemma derive_keeps_untrusted_witness :
  is_untrusted (derive_from [trusted_user; untrusted_external]) = true
  /\ (exists S',
        get_capabilities
          (derive_capabilities tracker_y_untrusted "x" ["z"; "y"]) "x"
        = Some S'
        /\ is_untrusted S' = true)
  /\ (exists S',
        get_capabilities
          (capability_tracker
             (_execute_stmt (assign "x" call_summarise_y)
                            system_y_untrusted).2) "x"
        = Some S'
        /\ is_untrusted S' = true).
Proof.
  destruct derive_keeps_untrusted as (H1 & H2 & H3). split; [|split].
  - apply H1. exists untrusted_external. split.
    + apply elem_of_cons. right. apply elem_of_cons. left. reflexivity.
    + vm_compute. reflexivity.
  - apply (H2 tracker_y_untrusted "x" "y" ["z"; "y"] untrusted_external).
    + apply elem_of_cons. right. apply elem_of_cons. left. reflexivity.
    + apply get_assign_eq.
    + vm_compute. reflexivity.
  - apply (H3 system_y_untrusted "x" "y" (load "query_quarantined_llm")
              [str "Summarise"; load "y"; str "string"] []
              untrusted_external VNone).
    + vm_compute. reflexivity.
    + apply elem_of_cons. left. reflexivity.
    + apply get_assign_eq.
    + vm_compute. reflexivity.
Defined.

(** C1, evaluated on the code. On a freshly set-up system, [email] holds
    [attacker@evil.com] and is labelled UNTRUSTED; the address is in no
    trusted domain and no recipient is approved; the registered e-mail
    policy, asked with the keys it reads ([recipient], [recipient_value]),
    denies.  Yet each of the three programs that send to that address runs
    to the end: the interpreter calls [send_email], and the message is in
    the outbox. *)
Theorem send_email_to_attacker_invoked :
  EmailPolicy default_email_policy
    ∈ policies (capability_tracker system_email_untrusted)
  /\ variables system_email_untrusted !! "email"
     = Some (VStr "attacker@evil.com")
  /\ is_untrusted
       <$> get_capabilities (capability_tracker system_email_untrusted) "email"
     = Some true
  /\ any_in (trusted_domains default_email_policy)
       (fun domain => pystr.contains domain "attacker@evil.com") = false
  /\ bool_decide
       ("attacker@evil.com" ∈ approved_recipients default_email_policy)
     = false
  /\ EmailSecurityPolicy.check default_email_policy "send_email"
       (capability_tracker system_email_untrusted)
       {[ "recipient" := CtxValue (VStr "email");
          "recipient_value" := CtxValue (VStr "attacker@evil.com") ]}
     = inr false
  /\ Forall
       (fun prog =>
          (execute prog system_email_untrusted).1 = inr (VBool true)
          /\ sent (world (execute prog system_email_untrusted).2)
             = [mkEmail "user@company.com" (VStr "attacker@evil.com")
                  (VStr "x") (VStr "y") "2025-01-01T12:00:00"]
          /\ map (fun call => call.1.1)
                 (invoked (execute prog system_email_untrusted).2)
             = ["send_email"])
       [prog_send_email_var; prog_send_email_positional;
        prog_send_email_literal].
Proof.
  split; [apply elem_of_cons; left; reflexivity|].
  splits;
    lazymatch goal with
    | |- Forall _ _ =>
        repeat (constructor; [splits; run|]); constructor
    | |- _ => run
    end.
Qed.

(** C2, evaluated on the code. After
    [x = query_quarantined_llm(...)], with literal arguments or with the
    unlabelled variable [notes] as the data, the call has been made, [x]
    holds the answer of the quarantined model, and the tracker has no entry
    for [x]. *)
Theorem quarantined_output_not_stamped :
  ((execute prog_extract_literal system0).1 = inr VNone
   /\ map (fun call => call.1.1)
          (invoked (execute prog_extract_literal system0).2)
      = ["query_quarantined_llm"]
   /\ variables (execute prog_extract_literal system0).2 !! "x"
      = Some (VStr "attacker@evil.com")
   /\ get_capabilities
        (capability_tracker (execute prog_extract_literal system0).2) "x"
      = None)
  /\ ((execute prog_extract_notes system_notes).1 = inr VNone
      /\ map (fun call => call.1.1)
             (invoked (execute prog_extract_notes system_notes).2)
         = ["query_quarantined_llm"]
      /\ variables (execute prog_extract_notes system_notes).2 !! "x"
         = Some (VStr "attacker@evil.com")
      /\ get_capabilities
           (capability_tracker (execute prog_extract_notes system_notes).2) "x"
         = None).
Proof. splits; run. Qed.

(** * Further properties of the code *)

(** ** The label algebra, continued *)

Lemma has_capability_spec (S : CapabilitySet) (t : CapabilityType)
    (src : option string) :
  has_capability S t src = true <->
  exists c, c ∈ capabilities S /\ capability_type c = t
            /\ match src with Some s => source c = s | None => True end.
Proof.
  unfold has_capability. rewrite existsb_elem_of. split.
  - intros (c & Hin & Hc). exists c.
    apply andb_true_iff in Hc as [Ht Hs]. apply bool_decide_eq_true in Ht.
    split; [apply elem_of_elements, Hin|]. split; [exact Ht|].
    destruct src; [apply bool_decide_eq_true in Hs; exact Hs|exact I].
  - intros (c & Hin & Ht & Hs). exists c.
    split; [apply elem_of_elements, Hin|].
    apply andb_true_iff. split; [apply bool_decide_eq_true, Ht|].
    destruct src; [apply bool_decide_eq_true, Hs|reflexivity].
Qed.

Lemma bool_eq_iff (a b : bool) : (a = true <-> b = true) -> a = b.
Proof. destruct a, b; intros [H1 H2]; auto; symmetry; auto. Qed.

Lemma CapabilitySet_eq (A B : CapabilitySet) :
  (forall c, c ∈ capabilities A <-> c ∈ capabilities B) -> A = B.
Proof.
  destruct A as [a], B as [b]. simpl. intros H. f_equal.
  apply set_eq. exact H.
Qed.

(** The derived set is untrusted exactly when one of the sources is:
    [derive_from] never taints what comes from untainted sources only, and
    when it taints it records the capability [UNTRUSTED/derived]. *)
Theorem derive_from_untrusted_iff (sources : list CapabilitySet) :
  (is_untrusted (derive_from sources) = true <->
   exists S, S ∈ sources /\ is_untrusted S = true)
  /\ ((exists S, S ∈ sources /\ is_untrusted S = true) ->
      has_capability (derive_from sources) UNTRUSTED (Some "derived") = true).
Proof.
  split; [split|].
  - intros H. apply has_capability_any in H as (c & Hc & Ht).
    apply derive_from_elem in Hc as [(S & HS & Hc)|[_ H]]; [|exact H].
    exists S. split; [exact HS|]. apply has_capability_any. eauto.
  - apply derive_from_untrusted.
  - intros H. apply has_capability_spec.
    exists (Capability_new UNTRUSTED "derived").
    split; [apply derive_from_elem; right; split; [reflexivity|exact H]|].
    split; reflexivity.
Qed.

Lemma derive_from_untrusted_iff_witness :
  has_capability (derive_from [read_file_cap; untrusted_external])
    UNTRUSTED (Some "derived") = true.
Proof.
  apply (proj2 (derive_from_untrusted_iff [read_file_cap; untrusted_external])).
  exists untrusted_external. split.
  - apply elem_of_cons. right. apply elem_of_cons. left. reflexivity.
  - vm_compute. reflexivity.
Defined.

(** [derive_from] depends on the set of its sources only: neither their
    order nor their repetition matters. *)
Theorem derive_from_same_sources (l1 l2 : list CapabilitySet) :
  (forall S, S ∈ l1 <-> S ∈ l2) -> derive_from l1 = derive_from l2.
Proof.
  intros H. apply CapabilitySet_eq. intros c. rewrite !derive_from_elem.
  split; (intros [(S & HS & Hc)|(-> & S & HS & Hu)];
          [left|right; split; [reflexivity|]]; exists S;
          (split; [apply H, HS|assumption])).
Qed.

Lemma derive_from_same_sources_witness :
  derive_from [trusted_user; untrusted_external]
  = derive_from [untrusted_external; trusted_user; untrusted_external].
Proof.
  apply derive_from_same_sources. intros S.
  rewrite !elem_of_cons. tauto.
Defined.

(** [merge] is the union of the two sets: a query on the merged set holds
    exactly when it holds on one side, for every kind and every optional
    source; the order of the two sets does not matter, and merging a set
    with itself gives it back. *)
Theorem merge_is_union (A B : CapabilitySet) :
  (forall t src,
      has_capability (merge A B) t src
      = has_capability A t src || has_capability B t src)
  /\ merge A B = merge B A
  /\ merge A A = A.
Proof.
  split; [|split].
  - intros t src. apply bool_eq_iff.
    rewrite orb_true_iff, !has_capability_spec. unfold merge; simpl. split.
    + intros (c & Hc & H). apply elem_of_union in Hc as [Hc|Hc];
        [left|right]; exists c; split; assumption.
    + intros [(c & Hc & H)|(c & Hc & H)]; exists c;
        (split; [apply elem_of_union; auto|exact H]).
  - apply CapabilitySet_eq. intros c. unfold merge; simpl.
    rewrite !elem_of_union. tauto.
  - apply CapabilitySet_eq. intros c. unfold merge; simpl.
    rewrite elem_of_union. tauto.
Qed.

(** The sources recorded on a derived set are those of the sets it derives
    from, and [derived] when one of them is untrusted. *)
Theorem get_sources_derive_from (sources : list CapabilitySet) (s : string) :
  s ∈ get_sources (derive_from sources) <->
  (exists S, S ∈ sources /\ s ∈ get_sources S)
  \/ (s = "derived" /\ exists S, S ∈ sources /\ is_untrusted S = true).
Proof.
  unfold get_sources. rewrite elem_of_map. split.
  - intros (c & -> & Hc).
    apply derive_from_elem in Hc as [(S & HS & Hc)|(-> & H)].
    + left. exists S. split; [exact HS|]. apply elem_of_map. eauto.
    + right. split; [reflexivity|exact H].
  - intros [(S & HS & Hs)|(-> & H)].
    + apply elem_of_map in Hs as (c & -> & Hc). exists c.
      split; [reflexivity|]. apply derive_from_elem. left. eauto.
    + exists (Capability_new UNTRUSTED "derived"). split; [reflexivity|].
      apply derive_from_elem. right. split; [reflexivity|exact H].
Qed.

(** ** The tracker, continued *)

Lemma get_assign_ne (tracker : CapabilityTracker) (x y : string)
    (S : CapabilitySet) :
  y <> x ->
  get_capabilities (assign_capabilities tracker x S) y
  = get_capabilities tracker y.
Proof.
  intros Hne. unfold get_capabilities, assign_capabilities. simpl.
  apply lookup_insert_ne. congruence.
Qed.

(** [derive_capabilities] writes the target only and never touches the
    policies.  When a source is bound, the labels of the target afterwards
    are exactly those of the bound sources, with [UNTRUSTED/derived] added
    when one of them is untrusted; the labels the target had before are
    gone unless the target is itself a source. *)
Theorem derive_capabilities_effect (tracker : CapabilityTracker)
    (target : string) (source_vars : list string) :
  policies (derive_capabilities tracker target source_vars) = policies tracker
  /\ (forall y, y <> target ->
        get_capabilities (derive_capabilities tracker target source_vars) y
        = get_capabilities tracker y)
  /\ ((exists y, y ∈ source_vars /\ is_Some (get_capabilities tracker y)) ->
      exists S',
        get_capabilities (derive_capabilities tracker target source_vars)
          target = Some S'
        /\ forall c,
            c ∈ capabilities S' <->
            (exists y S, y ∈ source_vars
                         /\ get_capabilities tracker y = Some S
                         /\ c ∈ capabilities S)
            \/ (c = Capability_new UNTRUSTED "derived"
                /\ exists y S, y ∈ source_vars
                               /\ get_capabilities tracker y = Some S
                               /\ is_untrusted S = true)).
Proof.
  unfold derive_capabilities.
  destruct (collect_source_caps tracker source_vars) as [|S0 rest] eqn:E.
  - split; [reflexivity|]. split; [reflexivity|].
    intros (y & Hy & [S HS]).
    assert (Hin : S ∈ collect_source_caps tracker source_vars)
      by (apply collect_source_caps_elem; eauto).
    rewrite E in Hin. inversion Hin.
  - split; [reflexivity|]. split; [intros y Hne; apply get_assign_ne, Hne|].
    intros _. eexists. split; [apply get_assign_eq|].
    intros c. rewrite derive_from_elem, <- E. split.
    + intros [(S & HS & Hc)|(-> & S & HS & Hu)];
        apply collect_source_caps_elem in HS as (y & Hy & HS).
      * left. exists y, S. auto.
      * right. split; [reflexivity|]. exists y, S. auto.
    + intros [(y & S & Hy & HS & Hc)|(-> & y & S & Hy & HS & Hu)].
      * left. exists S. split; [|exact Hc].
        apply collect_source_caps_elem. eauto.
      * right. split; [reflexivity|]. exists S. split; [|exact Hu].
        apply collect_source_caps_elem. eauto.
Qed.

Lemma derive_capabilities_effect_witness :
  exists S',
    get_capabilities (derive_capabilities tracker_a_b "x" ["a"; "b"; "c"]) "x"
    = Some S'
    /\ forall c,
        c ∈ capabilities S' <->
        (exists y S, y ∈ ["a"; "b"; "c"]
                     /\ get_capabilities tracker_a_b y = Some S
                     /\ c ∈ capabilities S)
        \/ (c = Capability_new UNTRUSTED "derived"
            /\ exists y S, y ∈ ["a"; "b"; "c"]
                           /\ get_capabilities tracker_a_b y = Some S
                           /\ is_untrusted S = true).
Proof.
  apply (proj2 (proj2 (derive_capabilities_effect tracker_a_b "x"
                         ["a"; "b"; "c"]))).
  exists "b". split.
  - apply elem_of_cons. right. apply elem_of_cons. left. reflexivity.
  - exists untrusted_external. apply get_assign_eq.
Defined.

Lemma check_policies_all (ps : list SecurityPolicy) (op : string)
    (t : CapabilityTracker) (ctx : gmap string ctx_value) :
  check_policies ps op t ctx = inr true <->
  Forall (fun q => policy_check q op t ctx = inr true) ps.
Proof.
  induction ps as [|q rest IH]; simpl.
  - split; [constructor|reflexivity].
  - destruct (policy_check q op t ctx) as [e|[|]] eqn:Hq.
    + split; [discriminate|]. intros H. inversion H; congruence.
    + rewrite IH. split; [intros H; constructor; assumption|].
      intros H. inversion H; assumption.
    + split; [discriminate|]. intros H. inversion H; congruence.
Qed.

Lemma check_policies_first (ps1 ps2 : list SecurityPolicy)
    (p : SecurityPolicy) (op : string) (t : CapabilityTracker)
    (ctx : gmap string ctx_value) :
  Forall (fun q => policy_check q op t ctx = inr true) ps1 ->
  check_policies (ps1 ++ p :: ps2) op t ctx
  = match policy_check p op t ctx with
    | inr true => check_policies ps2 op t ctx
    | r => r
    end.
Proof.
  induction 1 as [|q rest Hq _ IH]; simpl.
  - destruct (policy_check p op t ctx) as [e|[|]]; reflexivity.
  - rewrite Hq. exact IH.
Qed.

(** [check_operation] consults the policies in registration order and
    stops at the first that does not allow: the operation is allowed
    exactly when every policy allows it; when the policies before [p] allow
    and [p] refuses (or raises), the answer is that refusal (or that
    exception), whatever the policies after [p] would do. *)
Theorem check_operation_short_circuit (t : CapabilityTracker) (op : string)
    (ctx : gmap string ctx_value) :
  (check_operation t op ctx = inr true <->
   Forall (fun q => policy_check q op t ctx = inr true) (policies t))
  /\ (forall ps1 p ps2,
         policies t = (ps1 ++ p :: ps2)%list ->
         Forall (fun q => policy_check q op t ctx = inr true) ps1 ->
         policy_check p op t ctx <> inr true ->
         check_operation t op ctx = policy_check p op t ctx).
Proof.
  split; [apply check_policies_all|].
  intros ps1 p ps2 Hps Hall Hp. unfold check_operation.
  rewrite Hps, (check_policies_first _ _ _ _ _ _ Hall).
  destruct (policy_check p op t ctx) as [e|[|]]; congruence.
Qed.

Lemma check_operation_short_circuit_witness :
  check_operation
    (mkCapabilityTracker ∅ [allow_all; deny_all; raising]) "send_email" ∅
  = inr false.
Proof.
  apply (proj2 (check_operation_short_circuit
                  (mkCapabilityTracker ∅ [allow_all; deny_all; raising])
                  "send_email" ∅) [allow_all] deny_all [raising]).
  - reflexivity.
  - constructor; [reflexivity|constructor].
  - discriminate.
Defined.

(** ** The two reference policies, called with the keys they read *)

Lemma prefix_spec (n h : string) :
  String.prefix n h = true <-> exists post, h = n ++ post.
Proof.
  revert h. induction n as [|a n IH]; intros h; simpl.
  - split; [intros _; exists h; reflexivity|].
    intros _. destruct h; reflexivity.
  - destruct h as [|b h]; simpl.
    + split; [discriminate|]. intros (post & H). discriminate H.
    + destruct (ascii_dec a b) as [Heq|Hne].
      * subst b. rewrite (IH h). split; intros (post & H); exists post.
        -- simpl. rewrite H. reflexivity.
        -- simpl in H. injection H as H. exact H.
      * split; [discriminate|]. intros (post & H). simpl in H.
        injection H as H _. congruence.
Qed.

Lemma contains_spec (n h : string) :
  pystr.contains n h = true <-> substring_of n h.
Proof.
  unfold substring_of. induction h as [|b h IH].
  - change (pystr.contains n EmptyString)
      with (String.prefix n EmptyString || false).
    rewrite orb_false_r, prefix_spec. split.
    + intros (post & H). exists EmptyString, post. exact H.
    + intros ([|a pre] & post & H); [exists post; exact H|discriminate H].
  - change (pystr.contains n (String b h))
      with (String.prefix n (String b h) || pystr.contains n h).
    rewrite orb_true_iff, prefix_spec, IH. split.
    + intros [(post & H)|(pre & post & H)].
      * exists EmptyString, post. exact H.
      * exists (String b pre), post. simpl. rewrite H. reflexivity.
    + intros ([|a pre] & post & H).
      * left. exists post. exact H.
      * right. simpl in H. injection H as _ H. exists pre, post. exact H.
Qed.

Lemma any_in_spec (s : gset string) (f : string -> bool) :
  any_in s f = true <-> exists x, x ∈ s /\ f x = true.
Proof.
  unfold any_in. rewrite existsb_elem_of.
  split; intros (x & Hx & H); exists x; (split; [|exact H]);
    apply elem_of_elements; exact Hx.
Qed.

Lemma any_in_false (s : gset string) (f : string -> bool) :
  any_in s f = false <-> forall x, x ∈ s -> f x = false.
Proof.
  rewrite <- not_true_iff_false, any_in_spec. split.
  - intros H x Hx. destruct (f x) eqn:E; [|reflexivity].
    exfalso. apply H. eauto.
  - intros H (x & Hx & Hf). rewrite (H x Hx) in Hf. discriminate Hf.
Qed.

Lemma blocked_test (p : EmailSecurityPolicy) (r : string) :
  any_in (blocked_domains p)
    (fun bad_domain => pystr.contains bad_domain (pystr.lower r)) = true
  <-> on_deny_list p r.
Proof.
  rewrite any_in_spec. unfold on_deny_list.
  split; intros (b & Hb & H); exists b; (split; [exact Hb|]);
    apply contains_spec; exact H.
Qed.

Lemma email_check_unfold (p : EmailSecurityPolicy) (t : CapabilityTracker)
    (var r : string) :
  EmailSecurityPolicy.check p "send_email" t (recipient_ctx var r)
  = if any_in (blocked_domains p)
         (fun bad_domain => pystr.contains bad_domain (pystr.lower r))
    then inr false
    else if bool_decide (r ∈ approved_recipients p) then inr true
    else if negb (String.eqb var "") then
      match get_capabilities t var with
      | Some caps =>
          if is_untrusted caps
          then inr (any_in (trusted_domains p)
                      (fun domain => pystr.contains domain r))
          else inr true
      | None => inr true
      end
    else inr true.
Proof.
  unfold EmailSecurityPolicy.check.
  assert (H1 : recipient_ctx var r !! "recipient_value"
               = Some (CtxValue (VStr r))) by reflexivity.
  assert (H2 : recipient_ctx var r !! "recipient"
               = Some (CtxValue (VStr var))) by reflexivity.
  rewrite H1, H2. reflexivity.
Qed.

(** The e-mail policy, asked about [send_email] to the address [r] named
    by the identifier [var].  An address on the deny list is refused even
    when it is approved.  Off the deny list, an approved address is
    allowed; an address named by an identifier that is unlabelled, or not
    labelled UNTRUSTED, is allowed too, whatever its domain; and an address
    named by an UNTRUSTED identifier is allowed exactly when a trusted
    domain occurs somewhere in it.  Every other operation is allowed. *)
Theorem email_policy_rules (p : EmailSecurityPolicy) (t : CapabilityTracker)
    (var r : string) :
  (on_deny_list p r ->
   EmailSecurityPolicy.check p "send_email" t (recipient_ctx var r)
   = inr false)
  /\ (~ on_deny_list p r ->
      r ∈ approved_recipients p ->
      EmailSecurityPolicy.check p "send_email" t (recipient_ctx var r)
      = inr true)
  /\ (~ on_deny_list p r ->
      (forall S, get_capabilities t var = Some S -> is_untrusted S = false) ->
      EmailSecurityPolicy.check p "send_email" t (recipient_ctx var r)
      = inr true)
  /\ (forall S,
         ~ on_deny_list p r ->
         r ∉ approved_recipients p ->
         var <> "" ->
         get_capabilities t var = Some S ->
         is_untrusted S = true ->
         (EmailSecurityPolicy.check p "send_email" t (recipient_ctx var r)
          = inr true
          <-> exists d, d ∈ trusted_domains p /\ substring_of d r)
         /\ (EmailSecurityPolicy.check p "send_email" t (recipient_ctx var r)
             = inr false
             <-> forall d, d ∈ trusted_domains p -> ~ substring_of d r))
  /\ (forall op ctx,
         op <> "send_email" ->
         EmailSecurityPolicy.check p op t ctx = inr true).
Proof.
  rewrite email_check_unfold.
  pose proof (blocked_test p r) as Hb.
  destruct (any_in (blocked_domains p) _) eqn:Hblocked.
  { assert (Hd : on_deny_list p r) by (apply Hb; reflexivity).
    split; [reflexivity|]. split; [contradiction|]. split; [contradiction|].
    split; [intros; contradiction|].
    intros op ctx Hop. unfold EmailSecurityPolicy.check.
    apply String.eqb_neq in Hop. rewrite Hop. reflexivity. }
  assert (Hnd : ~ on_deny_list p r)
    by (intros H; apply Hb in H; discriminate H).
  split; [contradiction|]. split; [|split; [|split]].
  - intros _ Ha. rewrite (bool_decide_eq_true_2 _ Ha). reflexivity.
  - intros _ Hlab. destruct (bool_decide _); [reflexivity|].
    destruct (negb _); [|reflexivity].
    destruct (get_capabilities t var) as [S|]; [|reflexivity].
    rewrite (Hlab S eq_refl). reflexivity.
  - intros S _ Ha Hvar HS Hu. rewrite (bool_decide_eq_false_2 _ Ha).
    apply String.eqb_neq in Hvar. rewrite Hvar, HS, Hu. simpl.
    destruct (any_in (trusted_domains p) _) eqn:Ht.
    + apply any_in_spec in Ht as (d & Hd & Hc). apply contains_spec in Hc.
      split; split.
      * intros _. exists d. split; assumption.
      * intros _. reflexivity.
      * intros H. discriminate H.
      * intros H. exfalso. apply (H d Hd Hc).
    + pose proof (proj1 (any_in_false _ _) Ht) as Hf.
      split; split.
      * intros H. discriminate H.
      * intros (d & Hd & Hc). apply contains_spec in Hc.
        rewrite (Hf d Hd) in Hc. discriminate Hc.
      * intros _ d Hd Hc. apply contains_spec in Hc.
        rewrite (Hf d Hd) in Hc. discriminate Hc.
      * intros _. reflexivity.
  - intros op ctx Hop. unfold EmailSecurityPolicy.check.
    apply String.eqb_neq in Hop. rewrite Hop. reflexivity.
Qed.

Lemma not_on_deny_list (p : EmailSecurityPolicy) (r : string) :
  any_in (blocked_domains p)
    (fun bad_domain => pystr.contains bad_domain (pystr.lower r)) = false ->
  ~ on_deny_list p r.
Proof. intros H Hd. apply blocked_test in Hd. congruence. Qed.

Lemma email_policy_rules_witness :
  EmailSecurityPolicy.check default_email_policy "send_email"
    tracker_y_untrusted (recipient_ctx "y" "Mallory@EVIL.com") = inr false
  /\ EmailSecurityPolicy.check default_email_policy "send_email"
       tracker_y_untrusted (recipient_ctx "y" "bob@company.com.example.org")
     = inr true.
Proof.
  split.
  - apply (proj1 (email_policy_rules default_email_policy tracker_y_untrusted
                    "y" "Mallory@EVIL.com")).
    exists "evil.com". split.
    + apply (bool_decide_unpack _). vm_compute. exact I.
    + exists "mallory@", EmptyString. reflexivity.
  - destruct (email_policy_rules default_email_policy tracker_y_untrusted
                "y" "bob@company.com.example.org") as (_ & _ & _ & H & _).
    apply (H untrusted_external).
    + apply not_on_deny_list. vm_compute. reflexivity.
    + apply not_elem_of_empty.
    + discriminate.
    + apply get_assign_eq.
    + vm_compute. reflexivity.
    + exists "company.com". split.
      * apply (bool_decide_unpack _). vm_compute. exact I.
      * exists "bob@", ".example.org". reflexivity.
Defined.

Lemma any_allowed_string (l : list string) (s : string) :
  FileAccessPolicy.any_allowed l (CtxValue (VStr s))
  = inr (existsb (fun allowed => pystr.contains allowed s) l).
Proof.
  induction l as [|a rest IH]; simpl; [reflexivity|].
  destruct (pystr.contains a s); [reflexivity|exact IH].
Qed.

(** The file policy, asked about [read_file] or [write_file] on the path
    [pv] named by the identifier [var].  When the identifier is labelled
    UNTRUSTED, the operation is allowed exactly when one of the allowed
    paths occurs somewhere in [pv]; when the identifier is unlabelled or
    not labelled UNTRUSTED, it is allowed whatever the path.  Every other
    operation is allowed. *)
Theorem file_policy_rules (p : FileAccessPolicy) (t : CapabilityTracker)
    (op var pv : string) :
  (op = "read_file" \/ op = "write_file" ->
   var <> "" ->
   forall S,
     get_capabilities t var = Some S ->
     is_untrusted S = true ->
     (FileAccessPolicy.check p op t (path_ctx var pv) = inr true
      <-> exists a, a ∈ allowed_paths p /\ substring_of a pv)
     /\ (FileAccessPolicy.check p op t (path_ctx var pv) = inr false
         <-> forall a, a ∈ allowed_paths p -> ~ substring_of a pv))
  /\ ((forall S, get_capabilities t var = Some S -> is_untrusted S = false) ->
      FileAccessPolicy.check p op t (path_ctx var pv) = inr true)
  /\ (op <> "read_file" -> op <> "write_file" ->
      forall ctx, FileAccessPolicy.check p op t ctx = inr true).
Proof.
  assert (H1 : path_ctx var pv !! "path" = Some (CtxValue (VStr var)))
    by reflexivity.
  assert (H2 : path_ctx var pv !! "path_value" = Some (CtxValue (VStr pv)))
    by reflexivity.
  split; [|split].
  - intros Hop Hvar S HS Hu. unfold FileAccessPolicy.check.
    assert (Hb : String.eqb op "read_file" || String.eqb op "write_file"
                 = true).
    { destruct Hop as [->| ->]; reflexivity. }
    rewrite Hb, H1, H2. simpl. apply String.eqb_neq in Hvar.
    rewrite Hvar. simpl. rewrite HS, Hu, any_allowed_string.
    fold (any_in (allowed_paths p) (fun allowed => pystr.contains allowed pv)).
    destruct (any_in (allowed_paths p) _) eqn:Ha.
    + apply any_in_spec in Ha as (a & Ha & Hc). apply contains_spec in Hc.
      split; split.
      * intros _. exists a. split; assumption.
      * intros _. reflexivity.
      * intros H. discriminate H.
      * intros H. exfalso. apply (H a Ha Hc).
    + pose proof (proj1 (any_in_false _ _) Ha) as Hf.
      split; split.
      * intros H. discriminate H.
      * intros (a & Hin & Hc). apply contains_spec in Hc.
        rewrite (Hf a Hin) in Hc. discriminate Hc.
      * intros _ a Hin Hc. apply contains_spec in Hc.
        rewrite (Hf a Hin) in Hc. discriminate Hc.
      * intros _. reflexivity.
  - intros Hlab. unfold FileAccessPolicy.check.
    destruct (String.eqb op "read_file" || String.eqb op "write_file");
      [|reflexivity].
    rewrite H1. destruct (ctx_truthy _); [|reflexivity]. simpl.
    destruct (get_capabilities t var) as [S|] eqn:HS; [|reflexivity].
    rewrite (Hlab S eq_refl). reflexivity.
  - intros Hr Hw ctx. unfold FileAccessPolicy.check.
    apply String.eqb_neq in Hr, Hw. rewrite Hr, Hw. reflexivity.
Qed.

Lemma file_policy_rules_witness :
  FileAccessPolicy.check default_file_policy "read_file" tracker_y_untrusted
    (path_ctx "y" "/tmp/evil/documents/../../etc/passwd") = inr true
  /\ FileAccessPolicy.check default_file_policy "write_file"
       tracker_y_untrusted (path_ctx "x" "/etc/passwd") = inr true.
Proof.
  split.
  - destruct (file_policy_rules default_file_policy tracker_y_untrusted
                "read_file" "y" "/tmp/evil/documents/../../etc/passwd")
      as (H & _ & _).
    apply (H (or_introl eq_refl) ltac:(discriminate) untrusted_external).
    + apply get_assign_eq.
    + vm_compute. reflexivity.
    + exists "/documents/". split.
      * apply (bool_decide_unpack _). vm_compute. exact I.
      * exists "/tmp/evil", "../../etc/passwd". reflexivity.
  - apply (proj1 (proj2 (file_policy_rules default_file_policy
                           tracker_y_untrusted "write_file" "x"
                           "/etc/passwd"))).
    intros S HS.
    assert (Hx : get_capabilities tracker_y_untrusted "x" = None)
      by (vm_compute; reflexivity).
    rewrite Hx in HS. discriminate HS.
Defined.

Lemma EmailSecurityPolicy_eq (p q : EmailSecurityPolicy) :
  trusted_domains p = trusted_domains q ->
  approved_recipients p = approved_recipients q -> p = q.
Proof. destruct p, q. simpl. intros -> ->. reflexivity. Qed.

(** Approving and withdrawing a recipient.  Once [email] is approved, the
    policy allows [send_email] to it, whatever the label of the identifier
    that names it, unless the address is on the deny list; withdrawing an
    address that was newly approved gives the policy back as it was, and
    withdrawing one that was never approved changes nothing. *)
Theorem approve_then_withdraw (p : EmailSecurityPolicy)
    (t : CapabilityTracker) (var email : string) :
  (~ on_deny_list p email ->
   EmailSecurityPolicy.check
     (EmailSecurityPolicy.add_approved_recipient p email)
     "send_email" t (recipient_ctx var email) = inr true)
  /\ (email ∉ approved_recipients p ->
      EmailSecurityPolicy.remove_approved_recipient
        (EmailSecurityPolicy.add_approved_recipient p email) email = p
      /\ EmailSecurityPolicy.remove_approved_recipient p email = p).
Proof.
  split.
  - intros Hd. rewrite email_check_unfold.
    destruct (any_in _ _) eqn:Hb.
    + exfalso. apply Hd. apply blocked_test. exact Hb.
    + rewrite bool_decide_eq_true_2; [reflexivity|].
      unfold EmailSecurityPolicy.add_approved_recipient. simpl.
      apply elem_of_union. right. apply elem_of_singleton. reflexivity.
  - intros Hnot. split; apply EmailSecurityPolicy_eq; simpl;
      try reflexivity; apply set_eq; intros x;
      rewrite elem_of_difference, ?elem_of_union, elem_of_singleton.
    + split; [intros [[H|H] Hne]; [exact H|contradiction]|].
      intros H. split; [left; exact H|]. intros ->. contradiction.
    + split; [intros [H _]; exact H|].
      intros H. split; [exact H|]. intros ->. contradiction.
Qed.

Lemma approve_then_withdraw_witness :
  EmailSecurityPolicy.check
    (EmailSecurityPolicy.add_approved_recipient default_email_policy
       "partner@external.com")
    "send_email" tracker_y_untrusted (recipient_ctx "y" "partner@external.com")
  = inr true
  /\ EmailSecurityPolicy.remove_approved_recipient
       (EmailSecurityPolicy.add_approved_recipient default_email_policy
          "partner@external.com") "partner@external.com"
     = default_email_policy.
Proof.
  destruct (approve_then_withdraw default_email_policy tracker_y_untrusted
              "y" "partner@external.com") as (H1 & H2).
  split.
  - apply H1. apply not_on_deny_list. vm_compute. reflexivity.
  - apply H2. apply not_elem_of_empty.
Defined.

(** ** Every effect of an execution *)

Lemma effectful_ret {A} (a : A) : effectful (ret a).
Proof. intros st. apply rtc_refl. Qed.

Lemma effectful_raise {A} (e : exn) : effectful (@raise A e).
Proof. intros st. apply rtc_refl. Qed.

Lemma effectful_lift {A} (r : exn + A) : effectful (lift r).
Proof. intros st. apply rtc_refl. Qed.

Lemma effectful_bind {A B} (m : M A) (k : A -> M B) :
  effectful m -> (forall a, effectful (k a)) -> effectful (bind m k).
Proof.
  intros Hm Hk st. unfold bind. specialize (Hm st).
  destruct (m st) as [[e|a] st1]; simpl in *; [exact Hm|].
  eapply rtc_trans; [exact Hm|apply Hk].
Qed.

Lemma effectful_call_checked (func_name : string)
    (arg_nodes : list ast.expr) (args : list value)
    (kwargs : list (option string * value)) :
  effectful (call_checked func_name arg_nodes args kwargs).
Proof.
  intros st. unfold call_checked.
  destruct (check_operation _ _ _) as [e|[|]] eqn:Hcheck;
    try apply rtc_refl.
  destruct (functions st !! func_name) as [func|] eqn:Hf; [|apply rtc_refl].
  unfold call_function. fold (string_keys kwargs).
  destruct (string_keys kwargs) as [kw|] eqn:Hkw; [|apply rtc_refl].
  destruct (func args kw (world st)) as [r w] eqn:Hrun. simpl.
  apply rtc_once. eapply effect_call; eassumption.
Qed.

Lemma effectful_exprs (l : list ast.expr) :
  Forall (fun e => effectful (_execute_expr e)) l ->
  effectful (_execute_exprs l).
Proof.
  induction 1 as [|x t Hx _ IH]; simpl; [apply effectful_ret|].
  apply effectful_bind; [exact Hx|]. intros v.
  apply effectful_bind; [exact IH|]. intros vs. apply effectful_ret.
Qed.

Lemma effectful_keywords (l : list (option string * ast.expr))
    (acc : list (option string * value)) :
  Forall (fun kv => effectful (_execute_expr kv.2)) l ->
  effectful (_execute_keywords l acc).
Proof.
  intros H. revert acc.
  induction H as [|[k x] t Hx _ IH]; intros acc; simpl;
    [apply effectful_ret|].
  apply effectful_bind; [exact Hx|]. intros v. apply IH.
Qed.

Lemma effectful_compare_chain (cs : list ast.expr) (ops : list ast.cmpop)
    (lhs : value) :
  Forall (fun e => effectful (_execute_expr e)) cs ->
  effectful (compare_chain cs ops lhs).
Proof.
  intros H. revert ops lhs.
  induction H as [|c t Hc _ IH]; intros [|op ops] lhs; simpl;
    try apply effectful_ret.
  apply effectful_bind; [exact Hc|]. intros rhs.
  apply effectful_bind; [apply effectful_lift|]. intros [|];
    [apply IH|apply effectful_ret].
Qed.

Lemma effectful_expr (e : ast.expr) : effectful (_execute_expr e).
Proof.
  induction e as [op values H|l op r Hl Hr|op e He|keys values Hk Hv
                 |elts ctx H|elts ctx H|l ops cs Hl Hc|f args kws Hf Ha Hk
                 |c|v a ctx Hv|v s ctx Hv Hs|id ctx|l u s Hl Hu Hs
                 |c children H] using expr_ind';
    try apply effectful_raise.
  - change (effectful
              (let* first := _execute_expr l in compare_chain cs ops first)).
    apply effectful_bind; [exact Hl|]. intros first.
    apply effectful_compare_chain, Hc.
  - change (effectful
              (let* func_name := lift (_get_function_name f) in
               let* known :=
                 (fun st =>
                    (inr (bool_decide (is_Some (functions st !! func_name))),
                     st)) in
               if negb known
               then raise (CaMeLInterpreterError
                             ("Unknown function: " ++ func_name))
               else
                 let* args' := _execute_exprs args in
                 let* kwargs := _execute_keywords kws [] in
                 call_checked func_name args args' kwargs)).
    apply effectful_bind; [apply effectful_lift|]. intros func_name.
    apply effectful_bind; [intros st; apply rtc_refl|].
    intros [|]; simpl; [|apply effectful_raise].
    apply effectful_bind; [apply effectful_exprs, Ha|]. intros args'.
    apply effectful_bind; [apply effectful_keywords, Hk|]. intros kwargs.
    apply effectful_call_checked.
  - apply effectful_ret.
  - intros st. simpl.
    destruct (variables st !! id); [apply rtc_refl|].
    destruct (bool_decide _); apply rtc_refl.
Qed.

Lemma effectful_Assign (targets : list ast.expr) (e : ast.expr) :
  effectful (_execute_Assign targets e).
Proof.
  destruct targets as [|target [|t2 rest]]; try apply effectful_raise.
  destruct target; try apply effectful_raise.
  simpl. apply effectful_bind; [apply effectful_expr|].
  intros v st. simpl. apply rtc_once. apply (effect_assign st id v e).
Qed.

Lemma effectful_stmts (l : list ast.stmt) (r : value) :
  Forall (fun s => effectful (_execute_stmt s)) l ->
  effectful (run_stmts l r).
Proof.
  intros H. revert r.
  induction H as [|s t Hs _ IH]; intros r; simpl; [apply effectful_ret|].
  apply effectful_bind; [exact Hs|]. intros r'. apply IH.
Qed.

Lemma effectful_stmt (s : ast.stmt) : effectful (_execute_stmt s).
Proof.
  induction s as [name args body decorators returns Hb|value|targets value
                 |test body orelse Hb Ho|value|c exprs body Hb]
    using stmt_ind'; try apply effectful_raise.
  - destruct value; [apply effectful_expr|apply effectful_ret].
  - apply effectful_Assign.
  - change (effectful
              (let* test_result := _execute_expr test in
               if truthy test_result then run_stmts body VNone
               else match orelse with
                    | [] => ret VNone
                    | _ => run_stmts orelse VNone
                    end)).
    apply effectful_bind; [apply effectful_expr|]. intros v.
    destruct (truthy v); [apply effectful_stmts, Hb|].
    destruct orelse; [apply effectful_ret|apply effectful_stmts, Ho].
  - apply effectful_expr.
Qed.

(** Whatever the program, the whole effect of [execute] on the interpreter
    is a sequence of allowed calls and of assignments. *)
Lemma effectful_execute (tree : ast.mod_) : effectful (execute tree).
Proof.
  intros st. unfold execute. destruct (visit tree); [apply rtc_refl|].
  assert (H : rtc effect st (_execute_Module tree st).2).
  { destruct tree as [body]. apply effectful_stmts, Forall_forall.
    intros s _. apply effectful_stmt. }
  destruct (_execute_Module tree st) as [[e|v] st']; exact H.
Qed.

Lemma track_assignment_policies (x : string) (e : ast.expr)
    (t : CapabilityTracker) :
  policies (track_assignment x e t) = policies t.
Proof.
  destruct e; simpl; try reflexivity.
  - destruct (source_vars_of args); [reflexivity|].
    unfold derive_capabilities.
    destruct (collect_source_caps _ _); reflexivity.
  - destruct (get_capabilities t id); reflexivity.
Qed.

Lemma effect_frame (st st' : CaMeLInterpreter) :
  effect st st' ->
  policies (capability_tracker st') = policies (capability_tracker st)
  /\ functions st' = functions st.
Proof.
  intros [? ? ? ? ? ? ? ? ? _ _ _ _|? x v e]; simpl.
  - split; reflexivity.
  - split; [apply track_assignment_policies|reflexivity].
Qed.

Lemma effects_frame (st st' : CaMeLInterpreter) :
  rtc effect st st' ->
  policies (capability_tracker st') = policies (capability_tracker st)
  /\ functions st' = functions st.
Proof.
  induction 1 as [st|st1 st2 st3 Hstep _ IH]; [split; reflexivity|].
  destruct (effect_frame _ _ Hstep) as [H1 H2].
  destruct IH as [K1 K2]. split; congruence.
Qed.

Lemma tracker_eta (t : CapabilityTracker) :
  mkCapabilityTracker (variable_capabilities t) (policies t) = t.
Proof. destruct t. reflexivity. Qed.

Lemma effects_log (st st' : CaMeLInterpreter) :
  rtc effect st st' ->
  exists new,
    invoked st' = (invoked st ++ new)%list
    /\ Forall (allowed_call (policies (capability_tracker st))
                            (functions st)) new.
Proof.
  induction 1 as [st|st1 st2 st3 Hstep Hrest IH].
  - exists []. split; [symmetry; apply app_nil_r|constructor].
  - destruct (effect_frame _ _ Hstep) as [Hp Hf].
    destruct IH as (new & Hlog & Hall). rewrite Hp, Hf in Hall.
    destruct Hstep as [st name func args kwargs kw caps r w Hfn Hchk Hkw Hrun
                      |st x v e]; simpl in *.
    + exists ((name, args, kw) :: new). split.
      * rewrite Hlog. rewrite <- app_assoc. reflexivity.
      * constructor; [|exact Hall].
        exists (variable_capabilities (capability_tracker st)), kwargs, caps.
        simpl. split; [rewrite Hfn; eexists; reflexivity|].
        split; [exact Hkw|]. rewrite tracker_eta. exact Hchk.
    + exists new. split; assumption.
Qed.

(** Complete mediation. Whatever the program, [execute] leaves the policy
    list and the function table as they were, and every call it makes goes
    to a function of the table after the policy list allowed that very
    operation on those very arguments. *)
Theorem every_call_is_checked (tree : ast.mod_) (st : CaMeLInterpreter) :
  policies (capability_tracker (execute tree st).2)
  = policies (capability_tracker st)
  /\ functions (execute tree st).2 = functions st
  /\ exists new,
       invoked (execute tree st).2 = (invoked st ++ new)%list
       /\ Forall (allowed_call (policies (capability_tracker st))
                               (functions st)) new.
Proof.
  pose proof (effectful_execute tree st) as H.
  destruct (effects_frame _ _ H) as [H1 H2].
  split; [exact H1|]. split; [exact H2|]. apply effects_log, H.
Qed.

(** An operation that the policy list refuses on every context and every
    state of the labels is never invoked, by any program: the log of calls
    gains no entry for it. *)
Theorem refused_operation_never_invoked (tree : ast.mod_)
    (st : CaMeLInterpreter) (op : string) :
  (forall vc ctx,
      check_operation
        (mkCapabilityTracker vc (policies (capability_tracker st))) op ctx
      <> inr true) ->
  exists new,
    invoked (execute tree st).2 = (invoked st ++ new)%list
    /\ Forall (fun call => call.1.1 <> op) new.
Proof.
  intros Hdeny.
  destruct (effects_log _ _ (effectful_execute tree st)) as (new & Hlog & Hall).
  exists new. split; [exact Hlog|].
  eapply Forall_impl; [exact Hall|].
  intros [[name args] kw] (vc & kwargs & caps & _ & _ & Hchk) Heq.
  simpl in *. subst name. exact (Hdeny _ _ Hchk).
Qed.

Lemma refused_operation_never_invoked_witness :
  exists new,
    invoked (execute prog_send_email_literal interp_deny_all).2
    = (invoked interp_deny_all ++ new)%list
    /\ Forall (fun call => call.1.1 <> "send_email") new.
Proof.
  apply (refused_operation_never_invoked prog_send_email_literal
           interp_deny_all "send_email").
  intros vc ctx. discriminate.
Defined.

(** ** What a program can do to the outbox *)

Lemma never_approves_same_input (w w' : World) :
  user_input w' = user_input w -> never_approves w -> never_approves w'.
Proof. intros H Hn n. rewrite H. apply Hn. Qed.

Lemma quiet_wrap_tool (func : pyfunc) : quiet (_wrap_tool func true).
Proof.
  intros args kw w Hn. unfold _wrap_tool, require_user_approval.
  destruct (Hn (user_inputs w)) as [Hy Hyes].
  rewrite (bool_decide_eq_false_2 _ Hy), (bool_decide_eq_false_2 _ Hyes).
  simpl. split; reflexivity.
Qed.

Lemma quiet_query_quarantined_llm : quiet _query_quarantined_llm.
Proof.
  intros args kw w _. unfold _query_quarantined_llm.
  destruct (bind_params _ args kw) as [e|[|p [|d [|s [|? ?]]]]];
    try (split; reflexivity).
  destruct p; try (split; reflexivity).
  unfold query, _call_llm.
  destruct (q_llm_reply w (q_llm_calls w)) as [e|content];
    [split; reflexivity|].
  destruct (_validate_output content s); split; reflexivity.
Qed.

Lemma effects_outbox (st st' : CaMeLInterpreter) :
  rtc effect st st' ->
  (forall name f, functions st !! name = Some f -> quiet f) ->
  never_approves (world st) ->
  sent (world st') = sent (world st)
  /\ user_input (world st') = user_input (world st).
Proof.
  induction 1 as [st|st1 st2 st3 Hstep _ IH]; intros Hq Hn;
    [split; reflexivity|].
  destruct (effect_frame _ _ Hstep) as [_ Hf].
  assert (H12 : sent (world st2) = sent (world st1)
                /\ user_input (world st2) = user_input (world st1)).
  { destruct Hstep as [st name func args kwargs kw caps r w Hfn _ _ Hrun
                      |st x v e]; simpl; [|split; reflexivity].
    destruct (Hq name func Hfn args kw (world st) Hn) as [H1 H2].
    rewrite Hrun in H1, H2. simpl in H1, H2. split; assumption. }
  destruct H12 as [Hs Hu].
  destruct IH as [Hs' Hu'].
  - intros name f Hfn. apply (Hq name f). rewrite <- Hf. exact Hfn.
  - apply (never_approves_same_input (world st1)); assumption.
  - split; congruence.
Qed.

(** While the user never answers [y] or [yes], and every registered
    function is either wrapped with [requires_approval] or leaves the
    outbox alone, no program sends anything: the outbox after [execute] is
    the outbox before it. *)
Theorem no_approval_no_mail (tree : ast.mod_) (st : CaMeLInterpreter) :
  (forall name f, functions st !! name = Some f -> quiet f) ->
  never_approves (world st) ->
  sent (world (execute tree st).2) = sent (world st).
Proof.
  intros Hq Hn.
  apply (effects_outbox st (execute tree st).2 (effectful_execute tree st));
    assumption.
Qed.

Lemma no_approval_no_mail_witness :
  sent (world (execute prog_send_email_literal system_declining).2)
  = sent (world system_declining).
Proof.
  apply no_approval_no_mail.
  - intros name f H.
    change (functions system_declining)
      with (<["query_quarantined_llm" := _query_quarantined_llm]>
              (<["send_email" := _wrap_tool send_email true]>
                 (∅ : gmap string pyfunc))) in H.
    apply lookup_insert_Some in H as [[_ <-]|[_ H]];
      [apply quiet_query_quarantined_llm|].
    apply lookup_insert_Some in H as [[_ <-]|[_ H]];
      [apply quiet_wrap_tool|].
    rewrite lookup_empty in H. discriminate H.
  - intros n. split; vm_compute; discriminate.
Defined.

(** ** Errors raised before anything is evaluated *)

(** A call to a name that is not in the function table, a call whose
    callee is neither a name nor a dotted name, an assignment with several
    targets or none, and an assignment to anything but a simple name all
    raise with the interpreter untouched: neither the arguments nor the
    assigned expression are evaluated, so no function is called. *)
Theorem malformed_raises_untouched (st : CaMeLInterpreter) :
  (forall f args kws name,
      _get_function_name f = inr name ->
      functions st !! name = None ->
      _execute_expr (ast.Call f args kws) st
      = (inl (CaMeLInterpreterError ("Unknown function: " ++ name)), st))
  /\ (forall f args kws err,
         _get_function_name f = inl err ->
         _execute_expr (ast.Call f args kws) st
         = (inl (CaMeLInterpreterError "Complex function calls not supported"),
            st))
  /\ (forall targets e,
         length targets <> 1 ->
         _execute_stmt (ast.Assign targets e) st
         = (inl (CaMeLInterpreterError
                   "Multiple assignment targets not supported"), st))
  /\ (forall target e,
         name_of target = None ->
         _execute_stmt (ast.Assign [target] e) st
         = (inl (CaMeLInterpreterError
                   "Only simple variable assignment supported"), st)).
Proof.
  split; [|split; [|split]].
  - intros f args kws name Hname Hnone.
    change (_execute_expr (ast.Call f args kws) st)
      with ((let* func_name := lift (_get_function_name f) in
             let* known :=
               (fun st =>
                  (inr (bool_decide (is_Some (functions st !! func_name))),
                   st)) in
             if negb known
             then raise (CaMeLInterpreterError
                           ("Unknown function: " ++ func_name))
             else
               let* args' := _execute_exprs args in
               let* kwargs := _execute_keywords kws [] in
               call_checked func_name args args' kwargs) st).
    unfold bind, lift. rewrite Hname. simpl.
    rewrite bool_decide_eq_false_2; [reflexivity|].
    rewrite Hnone. intros [x Hx]. discriminate Hx.
  - intros f args kws err Herr.
    assert (He : err = CaMeLInterpreterError
                         "Complex function calls not supported").
    { clear -Herr. revert err Herr.
      induction f; intros err Herr; simpl in Herr;
        try (injection Herr as <-; reflexivity).
      - destruct (_get_function_name f) as [e|s];
          [injection Herr as <-; apply IHf; reflexivity|discriminate Herr].
      - discriminate Herr. }
    subst err.
    change (_execute_expr (ast.Call f args kws) st)
      with ((let* func_name := lift (_get_function_name f) in
             let* known :=
               (fun st =>
                  (inr (bool_decide (is_Some (functions st !! func_name))),
                   st)) in
             if negb known
             then raise (CaMeLInterpreterError
                           ("Unknown function: " ++ func_name))
             else
               let* args' := _execute_exprs args in
               let* kwargs := _execute_keywords kws [] in
               call_checked func_name args args' kwargs) st).
    unfold bind, lift. rewrite Herr. reflexivity.
  - intros [|t1 [|t2 rest]] e Hlen; simpl in *;
      [reflexivity|contradiction|reflexivity].
  - intros target e Hname. destruct target; simpl in *;
      try reflexivity. discriminate Hname.
Qed.

Lemma malformed_raises_untouched_witness :
  _execute_expr
    (ast.Call (ast.Attribute (load "os") "system" ast.Load)
       [ast.Call (load "send_email") [] []] []) system0
  = (inl (CaMeLInterpreterError "Unknown function: os.system"), system0)
  /\ _execute_stmt
       (ast.Assign [load "a"; load "b"] (ast.Call (load "send_email") [] []))
       system0
     = (inl (CaMeLInterpreterError
               "Multiple assignment targets not supported"), system0).
Proof.
  destruct (malformed_raises_untouched system0) as (H1 & _ & H3 & _).
  split.
  - apply (H1 (ast.Attribute (load "os") "system" ast.Load)
              [ast.Call (load "send_email") [] []] [] "os.system").
    + reflexivity.
    + vm_compute. reflexivity.
  - apply H3. simpl. discriminate.
Defined.

(** ** Assignment from a name, the result of a module *)

(** [y = x], where [x] is a variable with labels: the assignment succeeds,
    [y] receives the value of [x] and exactly the labels of [x], TRUSTED
    and UNTRUSTED alike; the values and labels of the other variables, the
    policies, the function table, the world and the log of calls are as
    before. *)
Theorem name_assignment_copies_labels (st : CaMeLInterpreter)
    (x y : string) (ctx : ast.expr_context) (v : value) (S : CapabilitySet) :
  variables st !! x = Some v ->
  get_capabilities (capability_tracker st) x = Some S ->
  (_execute_stmt (assign y (ast.Name x ctx)) st).1 = inr VNone
  /\ variables (_execute_stmt (assign y (ast.Name x ctx)) st).2 !! y = Some v
  /\ get_capabilities
       (capability_tracker (_execute_stmt (assign y (ast.Name x ctx)) st).2) y
     = Some S
  /\ (forall z, z <> y ->
        variables (_execute_stmt (assign y (ast.Name x ctx)) st).2 !! z
        = variables st !! z
        /\ get_capabilities
             (capability_tracker
                (_execute_stmt (assign y (ast.Name x ctx)) st).2) z
           = get_capabilities (capability_tracker st) z)
  /\ policies (capability_tracker
                 (_execute_stmt (assign y (ast.Name x ctx)) st).2)
     = policies (capability_tracker st)
  /\ functions (_execute_stmt (assign y (ast.Name x ctx)) st).2 = functions st
  /\ world (_execute_stmt (assign y (ast.Name x ctx)) st).2 = world st
  /\ invoked (_execute_stmt (assign y (ast.Name x ctx)) st).2 = invoked st.
Proof.
  intros Hv HS. unfold assign. rewrite execute_assign_eq.
  simpl. rewrite Hv. simpl. rewrite HS.
  split; [reflexivity|]. split; [apply lookup_insert_eq|].
  split; [apply get_assign_eq|]. split; [|repeat split].
  intros z Hz. split; [apply lookup_insert_ne; congruence|].
  apply get_assign_ne, Hz.
Qed.

Lemma name_assignment_copies_labels_witness :
  (_execute_stmt (assign "dst" (load "src")) system_src_trusted).1 = inr VNone
  /\ variables (_execute_stmt (assign "dst" (load "src")) system_src_trusted).2
       !! "dst" = Some (VStr "hello")
  /\ get_capabilities
       (capability_tracker
          (_execute_stmt (assign "dst" (load "src")) system_src_trusted).2)
       "dst"
     = Some trusted_user.
Proof.
  destruct (name_assignment_copies_labels system_src_trusted "src" "dst"
              ast.Load (VStr "hello") trusted_user) as (H1 & H2 & H3 & _).
  - apply lookup_insert_eq.
  - apply get_assign_eq.
  - split; [exact H1|]. split; [exact H2|exact H3].
Defined.

Lemma run_stmts_app (body1 body2 : list ast.stmt) (r : value)
    (st : CaMeLInterpreter) :
  run_stmts (body1 ++ body2) r st
  = match run_stmts body1 r st with
    | (inl e, st1) => (inl e, st1)
    | (inr r1, st1) => run_stmts body2 r1 st1
    end.
Proof.
  revert r st. induction body1 as [|s t IH]; intros r st; simpl;
    [reflexivity|].
  unfold bind. destruct (_execute_stmt s st) as [[e|r'] st1];
    [reflexivity|apply IH].
Qed.

(** What a module returns is what its last statement returns, run after
    the statements before it, whatever these returned; a [return]
    statement does not stop the execution, it runs exactly as an expression
    statement does, and the statements after it still run. *)
Theorem module_result_is_last_statement (st : CaMeLInterpreter) :
  (forall body s,
      _execute_Module (ast.Module_ (body ++ [s])) st
      = match _execute_Module (ast.Module_ body) st with
        | (inl e, st1) => (inl e, st1)
        | (inr _, st1) => _execute_stmt s st1
        end)
  /\ (forall body1 e body2,
         _execute_Module
           (ast.Module_ (body1 ++ ast.Return (Some e) :: body2)) st
         = _execute_Module (ast.Module_ (body1 ++ ast.Expr e :: body2)) st).
Proof.
  split.
  - intros body s. simpl. rewrite run_stmts_app.
    destruct (run_stmts body VNone st) as [[e|r1] st1]; [reflexivity|].
    simpl. unfold bind.
    destruct (_execute_stmt s st1) as [[e|r2] st2]; reflexivity.
  - intros body1 e body2. simpl. rewrite !run_stmts_app.
    destruct (run_stmts body1 VNone st) as [[err|r1] st1]; reflexivity.
Qed.

(** ** The validator, from both sides *)

Lemma scan_accepts (l : list string) :
  scan l = inr () <-> Forall (fun cls => ~ offending cls) l.
Proof.
  induction l as [|c t IH]; simpl.
  - split; [constructor|reflexivity].
  - destruct (offending_dec c) as [Hc|Hc].
    + rewrite (visit_head_refuses c Hc). split; [discriminate|].
      intros H. inversion H; contradiction.
    + rewrite (proj2 (visit_head_accepts c) Hc), IH. split.
      * intros H. constructor; assumption.
      * intros H. inversion H; assumption.
Qed.

(** The validator accepts a program exactly when every node of it, down to
    the operator and context nodes, has a class of the whitelist that is
    not forbidden; and an accepted program is handed to the evaluator. *)
Theorem validator_accepts_iff (tree : ast.mod_) :
  (visit tree = inr () <->
   Forall (fun cls => cls ∈ ALLOWED_NODES /\ cls ∉ FORBIDDEN_CONSTRUCTS)
          (classes_mod tree))
  /\ (visit tree = inr () ->
      forall st,
        execute tree st
        = match _execute_Module tree st with
          | (inl e, st') => (inl (wrap_error e), st')
          | (inr v, st') => (inr v, st')
          end).
Proof.
  split.
  - rewrite visit_scan, scan_accepts. apply Forall_proper; [|reflexivity].
    intros cls. unfold offending.
    destruct (decide (cls ∈ FORBIDDEN_CONSTRUCTS));
      destruct (decide (cls ∈ ALLOWED_NODES)); tauto.
  - intros H st. unfold execute. rewrite H. reflexivity.
Qed.

Lemma validator_accepts_iff_witness :
  execute prog_x_is_5 system0
  = match _execute_Module prog_x_is_5 system0 with
    | (inl e, st') => (inl (wrap_error e), st')
    | (inr v, st') => (inr v, st')
    end.
Proof.
  apply (proj2 (validator_accepts_iff prog_x_is_5)). reflexivity.
Defined.

Lemma classes_stmts_elem (body : list ast.stmt) (s : ast.stmt)
    (cls : string) :
  s ∈ body -> cls ∈ classes_stmt s -> cls ∈ classes_stmts body.
Proof.
  induction body as [|x t IH]; intros Hin Hc; [inversion Hin|].
  simpl. apply elem_of_app.
  apply elem_of_cons in Hin as [->|Hin]; [left; exact Hc|right; auto].
Qed.

Lemma contains_def_arguments (s : ast.stmt) :
  contains_def s -> "arguments" ∈ classes_stmt s.
Proof.
  induction 1 as [name args body decorators returns
                 |test body orelse s Hin _ IH
                 |test body orelse s Hin _ IH].
  - destruct args as [names defaults].
    change ("arguments"
              ∈ "FunctionDef"
                :: (("arguments"
                       :: map (fun _ => "arg") names ++ classes_exprs defaults)
                    ++ classes_stmts body ++ classes_exprs decorators
                    ++ match returns with
                       | Some r => classes_expr r
                       | None => []
                       end)%list).
    apply elem_of_cons. right. apply elem_of_app. left.
    apply elem_of_cons. left. reflexivity.
  - change ("arguments"
              ∈ "If" :: (classes_expr test ++ classes_stmts body
                         ++ classes_stmts orelse)%list).
    apply elem_of_cons. right. apply elem_of_app. right.
    apply elem_of_app. left. apply (classes_stmts_elem body s); assumption.
  - change ("arguments"
              ∈ "If" :: (classes_expr test ++ classes_stmts body
                         ++ classes_stmts orelse)%list).
    apply elem_of_cons. right. apply elem_of_app. right.
    apply elem_of_app. right. apply (classes_stmts_elem orelse s); assumption.
Qed.

(** Although [FunctionDef] is on the whitelist, no program with a function
    definition, at the top level or inside the branches of [if]
    statements, passes the validator: the [arguments] node that every [def]
    carries is not whitelisted.  [execute] raises and the interpreter is
    untouched. *)
Theorem function_definitions_never_pass (body : list ast.stmt)
    (s : ast.stmt) (st : CaMeLInterpreter) :
  s ∈ body ->
  contains_def s ->
  exists bad,
    offending bad
    /\ execute (ast.Module_ body) st = (inl (wrap_error (rejection bad)), st).
Proof.
  intros Hin Hdef.
  assert (Hc : "arguments" ∈ classes_mod (ast.Module_ body)).
  { simpl. apply elem_of_cons. right.
    apply (classes_stmts_elem body s); [exact Hin|].
    apply contains_def_arguments, Hdef. }
  assert (Hoff : offending "arguments").
  { right. apply (bool_decide_unpack _). vm_compute. exact I. }
  destruct (scan_rejects _ _ Hc Hoff) as (before & bad & after & _ & _ & Hbad & Hs).
  exists bad. split; [exact Hbad|].
  unfold execute. rewrite visit_scan, Hs. reflexivity.
Qed.

Lemma function_definitions_never_pass_witness :
  exists bad,
    offending bad
    /\ execute prog_def_in_if system0
       = (inl (wrap_error (rejection bad)), system0).
Proof.
  eapply (function_definitions_never_pass _ _ system0).
  - apply elem_of_cons. left. reflexivity.
  - eapply def_in_body; [|apply def_here].
    apply elem_of_cons. left. reflexivity.
Defined.

(** ** The output validator and the quarantined model, continued *)

Lemma rstrip_cons_nonspace (c : ascii) (t : string) :
  pystr.isspace c = false ->
  pystr.rstrip (String c t) = String c (pystr.rstrip t).
Proof.
  intros Hc. simpl. rewrite Hc. destruct (pystr.rstrip t); reflexivity.
Qed.

Lemma rstrip_idem (s : string) :
  pystr.rstrip (pystr.rstrip s) = pystr.rstrip s.
Proof.
  induction s as [|c t IH]; [reflexivity|].
  simpl. destruct (pystr.rstrip t) as [|c' t'] eqn:E.
  - destruct (pystr.isspace c) eqn:Hc; [reflexivity|].
    simpl. rewrite Hc. reflexivity.
  - change (pystr.rstrip (String c (String c' t')))
      with (match pystr.rstrip (String c' t') with
            | EmptyString =>
                if pystr.isspace c then EmptyString else String c EmptyString
            | t'' => String c t''
            end).
    rewrite IH. reflexivity.
Qed.

Lemma lstrip_head (s : string) :
  pystr.lstrip s = EmptyString
  \/ exists c t, pystr.lstrip s = String c t /\ pystr.isspace c = false.
Proof.
  induction s as [|c t IH]; [left; reflexivity|].
  simpl. destruct (pystr.isspace c) eqn:Hc; [exact IH|].
  right. exists c, t. split; [reflexivity|exact Hc].
Qed.

Lemma strip_idem (s : string) : pystr.strip (pystr.strip s) = pystr.strip s.
Proof.
  unfold pystr.strip.
  destruct (lstrip_head s) as [->|(c & t & -> & Hc)]; [reflexivity|].
  rewrite (rstrip_cons_nonspace c t Hc). simpl pystr.lstrip. rewrite Hc.
  rewrite (rstrip_cons_nonspace c _ Hc), rstrip_idem. reflexivity.
Qed.

Lemma validate_output_returns_stripped (output : string) (schema : value)
    (r : string) :
  _validate_output output schema = inr r -> r = pystr.strip output.
Proof.
  intros H. unfold _validate_output in H.
  repeat match type of H with
         | (if ?b then _ else _) = _ => destruct b
         end; congruence.
Qed.

(** Validation is idempotent: the verdict depends on the stripped output
    only, and an accepted output, which is the stripped one, is accepted
    again and returned unchanged. *)
Theorem validate_output_idempotent (output : string) (schema : value) :
  _validate_output (pystr.strip output) schema = _validate_output output schema
  /\ (forall r,
         _validate_output output schema = inr r ->
         r = pystr.strip output /\ _validate_output r schema = inr r).
Proof.
  assert (Hs : _validate_output (pystr.strip output) schema
               = _validate_output output schema).
  { unfold _validate_output. rewrite strip_idem. reflexivity. }
  split; [exact Hs|]. intros r H.
  pose proof (validate_output_returns_stripped output schema r H) as Hr.
  split; [exact Hr|]. subst r. rewrite Hs. exact H.
Qed.

Lemma validate_output_idempotent_witness :
  "bob@company.com" = pystr.strip "  bob@company.com "
  /\ _validate_output "bob@company.com" (VStr "email") = inr "bob@company.com".
Proof.
  apply (proj2 (validate_output_idempotent "  bob@company.com " (VStr "email"))).
  vm_compute. reflexivity.
Defined.

Lemma validate_accepts (raw schema r : string) :
  _validate_output raw (VStr schema) = inr r ->
  r = pystr.strip raw
  /\ (schema = "email" -> occurs "@" r /\ occurs "." r)
  /\ (schema = "string" -> String.length r <= 1000)
  /\ (schema = "filename" -> forall c, c ∈ invalid_chars -> ~ occurs c r).
Proof.
  intros H.
  pose proof (validate_output_returns_stripped raw (VStr schema) r H) as Hr.
  split; [exact Hr|]. subst r.
  unfold _validate_output in H. set (s := pystr.strip raw) in *.
  set (bad := existsb (fun char => pystr.contains_char char s) invalid_chars)
    in *.
  assert (Hbad : bad = true <-> exists c, c ∈ invalid_chars /\ occurs c s)
    by apply existsb_invalid_chars.
  clearbody bad. unfold py_eq in H. simpl in H.
  split; [|split].
  - intros ->. simpl in H. rewrite !(contains_single _ s) in H.
    destruct (pystr.contains_char "@" s) eqn:Hat;
      destruct (pystr.contains_char "." s) eqn:Hdot; simpl in H;
      try discriminate H.
    split; apply contains_char_occurs; assumption.
  - intros ->. simpl in H.
    destruct (Nat.ltb_spec 1000 (String.length s)); [discriminate H|lia].
  - intros ->. simpl in H. destruct bad; [discriminate H|].
    intros c Hc Ho. assert (false = true) by (apply Hbad; eauto).
    discriminate.
Qed.

(** A call [query_quarantined_llm(prompt, data, schema)] with a string
    prompt asks the quarantined model exactly once and never touches the
    outbox.  When it returns, the value is the stripped reply of the model
    and satisfies the schema: an [@] and a [.] for [email], at most 1000
    characters for [string], none of the nine characters for [filename].
    When the model fails or its reply violates the schema, the exception is
    a [RuntimeError] whose text starts with [Q-LLM processing failed: ]. *)
Theorem extractor_result_validated (p schema : string) (d : value)
    (w : World) :
  q_llm_calls (_query_quarantined_llm [VStr p; d; VStr schema] [] w).2
  = S (q_llm_calls w)
  /\ sent (_query_quarantined_llm [VStr p; d; VStr schema] [] w).2 = sent w
  /\ match (_query_quarantined_llm [VStr p; d; VStr schema] [] w).1 with
     | inr v =>
         exists raw r,
           q_llm_reply w (q_llm_calls w) = inr raw
           /\ v = VStr r
           /\ r = pystr.strip raw
           /\ (schema = "email" -> occurs "@" r /\ occurs "." r)
           /\ (schema = "string" -> String.length r <= 1000)
           /\ (schema = "filename" ->
               forall c, c ∈ invalid_chars -> ~ occurs c r)
     | inl e =>
         exists msg, e = RuntimeError ("Q-LLM processing failed: " ++ msg)
     end.
Proof.
  assert (Hb : bind_params [("prompt", None); ("data", None);
                            ("output_schema", None)]
                 [VStr p; d; VStr schema] []
               = inr [VStr p; d; VStr schema]) by reflexivity.
  unfold _query_quarantined_llm. rewrite Hb. unfold query, _call_llm.
  destruct (q_llm_reply w (q_llm_calls w)) as [e|raw] eqn:Hreply; simpl.
  - split; [reflexivity|]. split; [reflexivity|]. eexists. reflexivity.
  - destruct (_validate_output raw (VStr schema)) as [e|r] eqn:Hv; simpl.
    + split; [reflexivity|]. split; [reflexivity|]. eexists. reflexivity.
    + split; [reflexivity|]. split; [reflexivity|].
      exists raw, r. split; [reflexivity|]. split; [reflexivity|].
      apply (validate_accepts raw schema r Hv).
Qed.

(** ** Seeding a variable *)

Lemma singleton_labels (t : CapabilityType) (src : string) :
  let S := add CapabilitySet_new (Capability_new t src) in
  (forall t', has_capability S t' None = bool_decide (t = t'))
  /\ get_sources S = {[ src ]}.
Proof.
  simpl. split.
  - intros t'. apply bool_eq_iff. rewrite has_capability_any.
    rewrite bool_decide_eq_true. unfold add; simpl. split.
    + intros (c & Hc & Ht). apply elem_of_union in Hc as [Hc|Hc].
      * apply not_elem_of_empty in Hc. contradiction.
      * apply elem_of_singleton in Hc. subst c. exact Ht.
    + intros <-. exists (Capability_new t src).
      split; [|reflexivity]. apply elem_of_union. right.
      apply elem_of_singleton. reflexivity.
  - apply set_eq. intros s. unfold get_sources, add; simpl.
    rewrite elem_of_map, elem_of_singleton. split.
    + intros (c & -> & Hc). apply elem_of_union in Hc as [Hc|Hc].
      * apply not_elem_of_empty in Hc. contradiction.
      * apply elem_of_singleton in Hc. subst c. reflexivity.
    + intros ->. exists (Capability_new t src).
      split; [reflexivity|]. apply elem_of_union. right.
      apply elem_of_singleton. reflexivity.
Qed.

(** [set_untrusted_data] and [set_trusted_data] bind the value and replace
    whatever labels the variable had by a single capability: the variable
    is then untrusted and not trusted with the given source as its only
    source, or trusted and not untrusted with the only source [user]; no
    other variable's value or labels change. *)
Theorem seeding_sets_exact_labels (st : CaMeLInterpreter) (x : string)
    (v : value) (src : string) :
  (get_variable (set_untrusted_data st x v src) x = Some v
   /\ exists S,
        get_capabilities (capability_tracker (set_untrusted_data st x v src)) x
        = Some S
        /\ is_untrusted S = true /\ is_trusted S = false
        /\ get_sources S = {[ src ]})
  /\ (get_variable (set_trusted_data st x v) x = Some v
      /\ exists S,
           get_capabilities (capability_tracker (set_trusted_data st x v)) x
           = Some S
           /\ is_trusted S = true /\ is_untrusted S = false
           /\ get_sources S = {[ "user" ]})
  /\ (forall z, z <> x ->
        get_variable (set_untrusted_data st x v src) z = get_variable st z
        /\ get_capabilities
             (capability_tracker (set_untrusted_data st x v src)) z
           = get_capabilities (capability_tracker st) z
        /\ get_variable (set_trusted_data st x v) z = get_variable st z
        /\ get_capabilities (capability_tracker (set_trusted_data st x v)) z
           = get_capabilities (capability_tracker st) z).
Proof.
  split; [|split].
  - split; [apply lookup_insert_eq|]. eexists. split; [apply get_assign_eq|].
    destruct (singleton_labels UNTRUSTED src) as [Hh Hs].
    unfold is_untrusted, is_trusted. rewrite !Hh. split; [reflexivity|].
    split; [reflexivity|exact Hs].
  - split; [apply lookup_insert_eq|]. eexists. split; [apply get_assign_eq|].
    destruct (singleton_labels TRUSTED "user") as [Hh Hs].
    unfold is_untrusted, is_trusted. rewrite !Hh. split; [reflexivity|].
    split; [reflexivity|exact Hs].
  - intros z Hz.
    split; [apply lookup_insert_ne; congruence|].
    split; [apply get_assign_ne, Hz|].
    split; [apply lookup_insert_ne; congruence|apply get_assign_ne, Hz].
Qed.

Lemma seeding_sets_exact_labels_witness :
  get_variable (set_untrusted_data system_src_trusted "src" VNone "ext") "dst"
  = get_variable system_src_trusted "dst"
  /\ get_capabilities
       (capability_tracker
          (set_untrusted_data system_src_trusted "src" VNone "ext")) "dst"
     = get_capabilities (capability_tracker system_src_trusted) "dst".
Proof.
  destruct (seeding_sets_exact_labels system_src_trusted "src" VNone "ext")
    as (_ & _ & H).
  destruct (H "dst") as (H1 & H2 & _); [discriminate|].
  split; [exact H1|exact H2].
Defined.

(** ** The tool-shadowing detector over a session *)

Lemma ToolShadowingDetector_eq (a b : ToolShadowingDetector) :
  registered_tools a = registered_tools b ->
  tool_sources a = tool_sources b ->
  suspicious_duplicates a = suspicious_duplicates b -> a = b.
Proof. destruct a, b. simpl. intros -> -> ->. reflexivity. Qed.

Lemma register_tool_known (d : ToolShadowingDetector) (name s s' : string) :
  name ∈ registered_tools d ->
  tool_sources d !! name = Some s ->
  register_tool d name s'
  = if bool_decide (s = s') then (true, d)
    else (false,
          mkToolShadowingDetector (registered_tools d) (tool_sources d)
            (suspicious_duplicates d ++ [name])).
Proof.
  intros Hin Hs. unfold register_tool.
  rewrite (bool_decide_eq_true_2 _ Hin), Hs. simpl.
  destruct (decide (s = s')) as [->|Hne].
  - rewrite !bool_decide_eq_true_2 by reflexivity. simpl. f_equal.
    apply ToolShadowingDetector_eq; simpl; [|apply insert_id, Hs|reflexivity].
    apply set_eq. intros x. rewrite elem_of_union, elem_of_singleton.
    split; [intros [H| ->]; assumption|auto].
  - rewrite (bool_decide_eq_false_2 (s = s')) by exact Hne.
    rewrite bool_decide_eq_false_2 by congruence. reflexivity.
Qed.

Lemma register_tool_keeps (d : ToolShadowingDetector) (name s : string)
    (other src : string) :
  name ∈ registered_tools d ->
  tool_sources d !! name = Some s ->
  name ∈ registered_tools (register_tool d other src).2
  /\ tool_sources (register_tool d other src).2 !! name = Some s.
Proof.
  intros Hin Hs. destruct (decide (other = name)) as [->|Hne].
  - rewrite (register_tool_known d name s src Hin Hs).
    destruct (bool_decide (s = src)); simpl; split; assumption.
  - unfold register_tool.
    destruct (bool_decide (other ∈ registered_tools d)
              && negb (bool_decide (tool_sources d !! other = Some src)));
      simpl; [split; assumption|].
    split; [apply elem_of_union; left; exact Hin|].
    rewrite lookup_insert_ne by exact Hne. exact Hs.
Qed.

Lemma register_tool_conflicts (d : ToolShadowingDetector)
    (name src : string) :
  get_tool_conflicts (register_tool d name src).2
  = (get_tool_conflicts d
       ++ if (register_tool d name src).1 then [] else [name])%list.
Proof.
  unfold register_tool.
  destruct (bool_decide (name ∈ registered_tools d)
            && negb (bool_decide (tool_sources d !! name = Some src)));
    simpl; [reflexivity|]. symmetry. apply app_nil_r.
Qed.

(** The first source of a tool wins for the whole session.  Registering a
    known tool again from its own source returns [True] and changes
    nothing.  Over any sequence of registrations, a tool that is registered
    stays registered with the source it had, and the conflict list grows by
    exactly the names of the registrations that were refused, in order. *)
Theorem first_source_wins (d : ToolShadowingDetector) (name s : string) :
  name ∈ registered_tools d ->
  tool_sources d !! name = Some s ->
  register_tool d name s = (true, d)
  /\ forall regs,
       name ∈ registered_tools (register_all d regs).2
       /\ tool_sources (register_all d regs).2 !! name = Some s
       /\ get_tool_conflicts (register_all d regs).2
          = (get_tool_conflicts d
               ++ refused_names regs (register_all d regs).1)%list.
Proof.
  intros Hin Hs. split.
  - rewrite (register_tool_known d name s s Hin Hs).
    rewrite bool_decide_eq_true_2 by reflexivity. reflexivity.
  - intros regs. revert d Hin Hs.
    induction regs as [|[other src] rest IH]; intros d Hin Hs; simpl.
    + split; [exact Hin|]. split; [exact Hs|]. symmetry. apply app_nil_r.
    + destruct (register_tool_keeps d name s other src Hin Hs) as [Hin1 Hs1].
      pose proof (register_tool_conflicts d other src) as Hc.
      destruct (register_tool d other src) as [ok d1]. simpl in *.
      destruct (IH d1 Hin1 Hs1) as (K1 & K2 & K3).
      destruct (register_all d1 rest) as [oks d2]. simpl in *.
      split; [exact K1|]. split; [exact K2|].
      rewrite K3, Hc. destruct ok; simpl.
      * rewrite app_nil_r. reflexivity.
      * rewrite <- app_assoc. reflexivity.
Qed.

Lemma first_source_wins_witness :
  register_tool detector_A "send_email" "server-A" = (true, detector_A)
  /\ tool_sources
       (register_all detector_A
          [("send_email", "server-B"); ("read_file", "server-B");
           ("send_email", "server-C")]).2 !! "send_email"
     = Some "server-A".
Proof.
  destruct (first_source_wins detector_A "send_email" "server-A") as [H1 H2].
  - apply elem_of_union. right. apply elem_of_singleton. reflexivity.
  - apply lookup_insert_eq.
  - split; [exact H1|].
    apply (H2 [("send_email", "server-B"); ("read_file", "server-B");
               ("send_email", "server-C")]).
Defined.

(** ** The rate limit and the blocked patterns of [MCPSecurityPolicy] *)

Lemma mcp_check_rules (p : MCPSecurityPolicy) (op : string)
    (t : CapabilityTracker) (kwargs : gmap string ctx_value) :
  tool_rules (MCPSecurityPolicy.check p op t kwargs).2 = tool_rules p.
Proof.
  unfold MCPSecurityPolicy.check.
  destruct (tool_rules p !! op) as [rule|]; [|reflexivity].
  destruct (_ <=? _)%Z; [reflexivity|].
  destruct (existsb _ _); reflexivity.
Qed.

Lemma mcp_check_refusal (p : MCPSecurityPolicy) (op : string)
    (t : CapabilityTracker) (kwargs : gmap string ctx_value) :
  (MCPSecurityPolicy.check p op t kwargs).1 = false ->
  (MCPSecurityPolicy.check p op t kwargs).2 = p.
Proof.
  unfold MCPSecurityPolicy.check.
  destruct (tool_rules p !! op) as [rule|]; [|discriminate].
  destruct (_ <=? _)%Z; [reflexivity|].
  destruct (existsb _ _); [reflexivity|discriminate].
Qed.

Lemma mcp_check_count (p : MCPSecurityPolicy) (op op' : string)
    (t : CapabilityTracker) (kwargs : gmap string ctx_value)
    (rule : MCPToolRule) :
  tool_rules p !! op = Some rule ->
  let n := default 0 (call_counts p !! op) in
  let r := MCPSecurityPolicy.check p op' t kwargs in
  let hit := bool_decide (op' = op) && r.1 in
  default 0 (call_counts r.2 !! op) = (if hit then 1 else 0) + n
  /\ (hit = true -> (Z.of_nat n < max_calls_per_session rule)%Z).
Proof.
  intros Hrule. simpl. unfold MCPSecurityPolicy.check.
  destruct (decide (op' = op)) as [->|Hne].
  - rewrite bool_decide_eq_true_2 by reflexivity. rewrite Hrule. simpl.
    destruct (Z.leb_spec (max_calls_per_session rule)
                (Z.of_nat (default 0%nat (call_counts p !! op)))) as [Hle|Hlt];
      simpl; [split; [reflexivity|discriminate]|].
    destruct (existsb _ _); simpl; [split; [reflexivity|discriminate]|].
    rewrite lookup_insert_eq. simpl. split; [reflexivity|]. intros _. exact Hlt.
  - rewrite bool_decide_eq_false_2 by exact Hne. simpl.
    split; [|discriminate].
    destruct (tool_rules p !! op') as [rule'|]; [|reflexivity].
    destruct (_ <=? _)%Z; [reflexivity|].
    destruct (existsb _ _); [reflexivity|]. simpl.
    rewrite lookup_insert_ne by exact Hne. reflexivity.
Qed.

Lemma check_all_count (p : MCPSecurityPolicy) (t : CapabilityTracker)
    (calls : list (string * gmap string ctx_value)) (op : string)
    (rule : MCPToolRule) :
  tool_rules p !! op = Some rule ->
  default 0 (call_counts (check_all p t calls).2 !! op)
  = allowed_count op calls (check_all p t calls).1
    + default 0 (call_counts p !! op)
  /\ (0 < allowed_count op calls (check_all p t calls).1 ->
      (Z.of_nat (default 0%nat (call_counts (check_all p t calls).2 !! op))
       <= max_calls_per_session rule)%Z).
Proof.
  revert p. induction calls as [|[op' kwargs] rest IH]; intros p Hrule; simpl.
  - split; [reflexivity|lia].
  - destruct (mcp_check_count p op op' t kwargs rule Hrule) as [Hn Hlim].
    pose proof (mcp_check_rules p op' t kwargs) as Hr.
    destruct (MCPSecurityPolicy.check p op' t kwargs) as [ok p1].
    simpl in *.
    assert (Hrule1 : tool_rules p1 !! op = Some rule)
      by (rewrite Hr; exact Hrule).
    destruct (IH p1 Hrule1) as [Hc Hb].
    destruct (check_all p1 t rest) as [oks p2]. simpl in *.
    split; [rewrite Hc, Hn; lia|].
    intros Hpos.
    destruct (Nat.eq_dec (allowed_count op rest oks) 0) as [Hz|Hnz].
    + rewrite Hc, Hz, Hn. simpl.
      destruct (bool_decide (op' = op) && ok) eqn:Hhit; [|lia].
      specialize (Hlim eq_refl). lia.
    + apply Hb. lia.
Qed.

Lemma blocked_argument_spec (rule : MCPToolRule) (v : ctx_value) :
  MCPSecurityPolicy.blocked_argument rule v = true
  <-> exists s pattern,
        v = CtxValue (VStr s)
        /\ pattern ∈ blocked_patterns rule
        /\ substring_of pattern (pystr.lower s).
Proof.
  split.
  - destruct v as [[| | |s|]| | |]; simpl; try discriminate.
    intros H. apply any_in_spec in H. destruct H as (pattern & Hin & Hc).
    exists s, pattern. split; [reflexivity|]. split; [exact Hin|].
    apply contains_spec, Hc.
  - intros (s & pattern & -> & Hin & Hsub). simpl. apply any_in_spec.
    exists pattern. split; [exact Hin|]. apply contains_spec, Hsub.
Qed.

Lemma blocked_kwargs_spec (rule : MCPToolRule)
    (kwargs : gmap string ctx_value) :
  existsb (fun kv => MCPSecurityPolicy.blocked_argument rule kv.2) (map_to_list kwargs) = true
  <-> holds_blocked_pattern rule kwargs.
Proof.
  rewrite existsb_elem_of. unfold holds_blocked_pattern. split.
  - intros ([k v] & Hin & Hb). simpl in Hb.
    apply elem_of_map_to_list in Hin.
    apply blocked_argument_spec in Hb.
    destruct Hb as (s & pattern & -> & Hp & Hsub).
    exists k, s, pattern. split; [exact Hin|]. split; assumption.
  - intros (k & s & pattern & Hk & Hp & Hsub).
    exists (k, CtxValue (VStr s)). split.
    + apply elem_of_map_to_list, Hk.
    + apply blocked_argument_spec. exists s, pattern.
      split; [reflexivity|]. split; assumption.
Qed.

(** The rules of [MCPSecurityPolicy.check] for an operation that has a
    rule: the call is allowed exactly when the counter of the operation is
    below [max_calls_per_session] and no string argument holds, in lower
    case, one of the blocked patterns.  An allowed call adds one to the
    counter of the operation and changes nothing else; a refused call
    changes nothing at all.  Arguments that are not strings are never
    examined. *)
Theorem mcp_policy_rules (p : MCPSecurityPolicy) (op : string)
    (t : CapabilityTracker) (kwargs : gmap string ctx_value)
    (rule : MCPToolRule) :
  tool_rules p !! op = Some rule ->
  ((MCPSecurityPolicy.check p op t kwargs).1 = true
   <-> (Z.of_nat (default 0%nat (call_counts p !! op))
        < max_calls_per_session rule)%Z
       /\ ~ holds_blocked_pattern rule kwargs)
  /\ ((MCPSecurityPolicy.check p op t kwargs).1 = true ->
      (MCPSecurityPolicy.check p op t kwargs).2
      = mkMCPSecurityPolicy (tool_rules p)
          (<[op := S (default 0 (call_counts p !! op))]> (call_counts p))
          (session_data_exports p))
  /\ ((MCPSecurityPolicy.check p op t kwargs).1 = false ->
      (MCPSecurityPolicy.check p op t kwargs).2 = p)
  /\ ((forall k s, kwargs !! k <> Some (CtxValue (VStr s))) ->
      ~ holds_blocked_pattern rule kwargs).
Proof.
  intros Hrule.
  pose proof (blocked_kwargs_spec rule kwargs) as Hb.
  split; [|split; [|split]].
  - unfold MCPSecurityPolicy.check. rewrite Hrule. simpl.
    destruct (Z.leb_spec (max_calls_per_session rule)
                (Z.of_nat (default 0%nat (call_counts p !! op))))
      as [Hle|Hlt]; simpl.
    + split; [discriminate|]. intros [H _]. lia.
    + destruct (existsb _ _); simpl.
      * split; [discriminate|]. intros [_ H]. exfalso. apply H, Hb.
        reflexivity.
      * split; [|reflexivity]. intros _. split; [exact Hlt|].
        intros H. apply Hb in H. discriminate H.
  - unfold MCPSecurityPolicy.check. rewrite Hrule. simpl.
    destruct (_ <=? _)%Z; simpl; [discriminate|].
    destruct (existsb _ _); simpl; [discriminate|]. reflexivity.
  - apply mcp_check_refusal.
  - intros Hno (k & s & pattern & Hk & _). exact (Hno k s Hk).
Qed.

Lemma mcp_policy_rules_witness :
  (MCPSecurityPolicy.check MCPSecurityPolicy.init "send_email"
     tracker_y_untrusted
     {[ "body" := CtxValue (VStr "Please EXFILTRATE the report") ]}).1
  <> true.
Proof.
  intros H.
  apply (proj1 (mcp_policy_rules MCPSecurityPolicy.init "send_email"
                  tracker_y_untrusted
                  {[ "body" := CtxValue (VStr "Please EXFILTRATE the report") ]}
                  default_email_rule eq_refl)) in H.
  destruct H as [_ H]. apply H.
  exists "body", "Please EXFILTRATE the report", "exfiltrate".
  split; [apply lookup_singleton_eq|]. split.
  - apply (bool_decide_unpack _). vm_compute. exact I.
  - exists "please ", " the report". reflexivity.
Defined.

(** The rate limit holds over a session.  Over any sequence of checks, the
    counter of an operation that has a rule grows by exactly the number of
    its allowed calls, so refused calls are not counted.  From a counter that
    is not set, and so after [reset_session], the number of allowed calls of
    the operation never exceeds [max_calls_per_session], whatever the other
    calls of the session are. *)
Theorem rate_limit_holds (p : MCPSecurityPolicy) (t : CapabilityTracker)
    (op : string) (rule : MCPToolRule) :
  tool_rules p !! op = Some rule ->
  (forall calls,
      default 0 (call_counts (check_all p t calls).2 !! op)
      = allowed_count op calls (check_all p t calls).1
        + default 0 (call_counts p !! op))
  /\ (forall calls,
         call_counts p !! op = None ->
         (Z.of_nat (allowed_count op calls (check_all p t calls).1)
          <= Z.max 0 (max_calls_per_session rule))%Z)
  /\ (forall calls,
         (Z.of_nat
            (allowed_count op calls
               (check_all (MCPSecurityPolicy.reset_session p) t calls).1)
          <= Z.max 0 (max_calls_per_session rule))%Z).
Proof.
  intros Hrule.
  assert (Hfresh : forall q calls,
             tool_rules q !! op = Some rule ->
             call_counts q !! op = None ->
             (Z.of_nat (allowed_count op calls (check_all q t calls).1)
              <= Z.max 0 (max_calls_per_session rule))%Z).
  { intros q calls Hq Hnone.
    destruct (check_all_count q t calls op rule Hq) as [Hc Hb].
    rewrite Hnone in Hc. simpl in Hc.
    destruct (Nat.eq_dec (allowed_count op calls (check_all q t calls).1) 0)
      as [Hz|Hnz]; [rewrite Hz; lia|].
    assert (Hpos : 0 < allowed_count op calls (check_all q t calls).1) by lia.
    specialize (Hb Hpos). rewrite Hc in Hb. lia. }
  split; [|split].
  - intros calls. apply (check_all_count p t calls op rule Hrule).
  - intros calls Hnone. apply (Hfresh p calls Hrule Hnone).
  - intros calls. apply Hfresh; [exact Hrule|]. apply lookup_empty.
Qed.

Lemma rate_limit_holds_witness :
  (Z.of_nat
     (allowed_count "send_email" seven_emails
        (check_all MCPSecurityPolicy.init tracker_y_untrusted
           seven_emails).1)
   <= Z.max 0 5)%Z.
Proof.
  apply (proj1 (proj2 (rate_limit_holds MCPSecurityPolicy.init
                         tracker_y_untrusted "send_email"
                         default_email_rule eq_refl)) seven_emails).
  reflexivity.
Defined.
